(** * Proof-of-work core of LitecoinZ (pow.cpp)

    A shallow embedding of the retarget engine (Digishield v3 and Zawy's
    LWMA) and of the header validator (CheckProofOfWork,
    CheckEquihashSolution), with the properties the specification states
    about them.

    Conventions.
    - Unsigned fixed-width values (uint32_t nBits, uint64_t, arith_uint256)
      are integers in Z with the reduction modulo 2^w written out.
    - Signed arithmetic whose overflow is undefined behaviour in C++ is
      exact arithmetic in Z; the narrowing conversion of an int64_t to int
      is the two's complement reduction [to_int32].
    - A pointer to a block index is the list of index entries from that
      block back to the genesis: [pprev] is the tail, [nullptr] is [[]].
    - Failing runs (assert, a thrown uint_error, a read through a null
      pointer) are results of type [outcome]. *)

From Stdlib Require Import ZArith List Bool Lia.
From Stdlib Require Strings.Byte.
Import ListNotations.
Local Open Scope Z_scope.

(** ** Outcomes of a call *)

Inductive fault : Type :=
| AssertionFailed   (* assert(...) does not hold: the process aborts *)
| NullDereference   (* a member is read through a null pointer *)
| UintError         (* arith_uint256 division by zero throws uint_error *)
| IntDivByZero.     (* signed integer division by zero *)

Inductive outcome (A : Type) : Type :=
| Ok (a : A)
| Fault (f : fault).
Arguments Ok {A} a.
Arguments Fault {A} f.

Definition bind {A B : Type} (m : outcome A) (k : A -> outcome B) : outcome B :=
  match m with
  | Ok a => k a
  | Fault f => Fault f
  end.

Notation "x <- m ;; k" := (bind m (fun x => k))
  (at level 61, m at next level, right associativity).
Notation "' pat <- m ;; k" := (bind m (fun x => match x with pat => k end))
  (at level 61, pat pattern, m at next level, right associativity).

(** ** Fixed-width conversions *)

Definition to_uint32 (x : Z) : Z := x mod 2^32.
Definition to_uint64 (x : Z) : Z := x mod 2^64.

(** int64_t -> int, as in [t += solvetime * j] with [int t]: the value
    modulo 2^32 taken in [-2^31, 2^31). *)
Definition to_int32 (x : Z) : Z := (x + 2^31) mod 2^32 - 2^31.

(** ** 256-bit unsigned arithmetic *)

Module U256.

(** Modelled from the spec: arith_uint256 (arith_uint256.h and .cpp are not
    among the sources), sections 3 and 4.B: an "unsigned integer in
    [0, 2^256)". *)
Definition modulus : Z := 2^256.

(** Modelled from the spec: the low 256 bits of a result. *)
Definition wrap (x : Z) : Z := x mod modulus.

(** Modelled from the spec: a scalar operand ("u64") reaches the 256-bit
    operation through the uint64_t constructor. *)
Definition of_uint64 (x : Z) : Z := to_uint64 x.

(** Modelled from the spec: operator+=. *)
Definition add (a b : Z) : Z := wrap (a + b).

(** Modelled from the spec: operator*= ("*= u64"). *)
Definition mul (a b : Z) : Z := wrap (a * b).

(** Modelled from the spec: operator/= ("/= u64"), rounding toward zero;
    a zero divisor throws uint_error. *)
Definition div (a b : Z) : outcome Z :=
  if b =? 0 then Fault UintError else Ok (a / b).

(** Modelled from the spec: operator<<= and operator>>=. *)
Definition shiftl (a n : Z) : Z := wrap (Z.shiftl a n).

Definition shiftr (a n : Z) : Z := Z.shiftr a n.

(** Modelled from the spec: bits(), the position of the highest set bit
    plus one, 0 for 0 (the length left by "strip leading zero bytes"). *)
Definition bits (a : Z) : Z := if a =? 0 then 0 else Z.log2 a + 1.

(** Modelled from the spec: GetLow64(). *)
Definition GetLow64 (a : Z) : Z := to_uint64 a.

End U256.

(** ** Compact target codec *)

Record decoded : Type := mkDecoded {
  target : Z;
  fNegative : bool;
  fOverflow : bool
}.

(** Modelled from the spec: arith_uint256::SetCompact (sections 3 and 4.A).
    The top 8 bits are the exponent E, bit 23 is the sign and the low 23
    bits the mantissa.  The value is mantissa * 256^(E-3) for E >= 3 and
    mantissa >> 8*(3-E) below.  Negative: the sign bit is set and the
    mantissa (as decoded) is nonzero.  Overflow: the mantissa is nonzero
    and E > 34, and also, as property P2 requires of 0x21010000, when a
    mantissa of two or three bytes leaves the 256-bit range (E > 33,
    E > 32). *)
Definition SetCompact (nCompact : Z) : decoded :=
  let nSize := Z.shiftr nCompact 24 in
  let nWord := Z.land nCompact 0x007fffff in
  let nWord := if nSize <=? 3 then Z.shiftr nWord (8 * (3 - nSize)) else nWord in
  let value := if nSize <=? 3 then nWord else U256.shiftl nWord (8 * (nSize - 3)) in
  mkDecoded value
    (negb (nWord =? 0) && negb (Z.land nCompact 0x00800000 =? 0))
    (negb (nWord =? 0) &&
       ((nSize >? 34) || ((nWord >? 0xff) && (nSize >? 33))
        || ((nWord >? 0xffff) && (nSize >? 32)))).

(** Modelled from the spec: arith_uint256::GetCompact (section 4.A).
    "Strip leading zero bytes, if the high bit of the remaining mantissa is
    set shift right 8 and bump exponent"; the three most significant bytes
    are kept and the rest is dropped (round toward zero). *)
Definition GetCompact (a : Z) : Z :=
  let nSize := (U256.bits a + 7) / 8 in
  let nCompact :=
    if nSize <=? 3 then to_uint32 (Z.shiftl (U256.GetLow64 a) (8 * (3 - nSize)))
    else to_uint32 (U256.GetLow64 (U256.shiftr a (8 * (nSize - 3)))) in
  let '(nCompact, nSize) :=
    if negb (Z.land nCompact 0x00800000 =? 0)
    then (Z.shiftr nCompact 8, nSize + 1)
    else (nCompact, nSize) in
  Z.lor nCompact (to_uint32 (Z.shiftl nSize 24)).

(** Modelled from the spec: UintToArith256 ("construct from 256-bit hash",
    section 4.B), the 256-bit number held by the blob. *)
Definition UintToArith256 (x : Z) : Z := U256.wrap x.

(** ** Chain index *)

Module CBlockIndex.

(** Modelled from the spec: CBlockIndex (chain.h is not among the
    sources); "Height, parent pointer, nBits, nTime". *)
Record t : Type := mk {
  nHeight : Z;
  nBits : Z;    (* uint32_t *)
  nTime : Z     (* uint32_t *)
}.

(** Modelled from the spec: CBlockIndex::GetBlockTime, the entry's nTime
    as an int64_t. *)
Definition GetBlockTime (b : t) : Z := nTime b.

End CBlockIndex.

(** A (possibly null) [const CBlockIndex*]: the entry pointed to, followed
    by its [pprev] chain down to the genesis. *)
Definition pindex : Type := list CBlockIndex.t.

Definition is_null (p : pindex) : bool :=
  match p with [] => true | _ :: _ => false end.

Definition pprev (p : pindex) : pindex := tl p.

(** [p->member]: reading through a null pointer is a fault. *)
Definition deref {A : Type} (p : list A) : outcome A :=
  match p with
  | [] => Fault NullDereference
  | b :: _ => Ok b
  end.

Definition deref_opt {A : Type} (p : option A) : outcome A :=
  match p with
  | None => Fault NullDereference
  | Some b => Ok b
  end.

Definition assert_ (b : bool) : outcome unit :=
  if b then Ok tt else Fault AssertionFailed.

(** The chain-index invariant: the genesis has height 0 and every entry is
    one above its [pprev]. *)
Fixpoint chain_ok (p : pindex) : Prop :=
  match p with
  | [] => True
  | b :: rest => CBlockIndex.nHeight b = Z.of_nat (length rest) /\ chain_ok rest
  end.

(** Modelled from the spec: CBlockIndex::GetAncestor ("getAncestor(height)",
    section 3).  A height above the entry's own or below zero has no
    ancestor (null); otherwise the parent pointers are followed down to the
    requested height. *)
Definition GetAncestor (this : pindex) (height : Z) : outcome pindex :=
  b <- deref this ;;
  if (height >? CBlockIndex.nHeight b) || (height <? 0) then Ok []
  else Ok (skipn (Z.to_nat (CBlockIndex.nHeight b - height)) this).

Fixpoint insert_sorted (x : Z) (l : list Z) : list Z :=
  match l with
  | [] => [x]
  | y :: l' => if x <=? y then x :: l else y :: insert_sorted x l'
  end.

Definition sort_times (l : list Z) : list Z := fold_right insert_sorted [] l.

Definition nMedianTimeSpan : nat := 11.

(** Modelled from the spec: CBlockIndex::GetMedianTimePast (section 4.C).
    "The median of nTime of the 11 most recent ancestors ending at i (fewer
    when the chain is shorter than 11).  Ties in even-length sets take the
    lower middle." *)
Definition GetMedianTimePast (this : pindex) : Z :=
  let times := sort_times (map CBlockIndex.GetBlockTime (firstn nMedianTimeSpan this)) in
  nth ((length times - 1) / 2) times 0.

(** ** Block header *)

Module CBlockHeader.

(** Modelled from the spec: CBlockHeader (primitives/block.h is not among
    the sources), the header table of section 3. *)
Record t : Type := mk {
  nVersion : Z;          (* int32_t *)
  hashPrevBlock : Z;     (* uint256 *)
  hashMerkleRoot : Z;    (* uint256 *)
  hashReserved : Z;      (* uint256 *)
  nTime : Z;             (* uint32_t *)
  nBits : Z;             (* uint32_t *)
  nNonce : Z;            (* uint256 *)
  nSolution : list Byte.byte
}.

(** Modelled from the spec: CBlockHeader::GetBlockTime. *)
Definition GetBlockTime (h : t) : Z := nTime h.

End CBlockHeader.

(** ** Consensus parameters *)

Inductive Network : Type := MAIN | TEST | REGTEST.

Module Consensus.

(** Modelled from the spec: Consensus::Params (consensus/params.h is not
    among the sources), section 6.  [NetworkIDString] stands for the
    process-wide [Params().NetworkIDString()], which the spec turns into
    a tag of the parameter bundle. *)
Record Params : Type := mkParams {
  NetworkIDString : Network;
  powLimit : Z;                          (* uint256 *)
  fPowNoRetargeting : bool;
  fPowAllowMinDifficultyBlocks : bool;
  nZawyLWMAHeight : Z;
  nEquihashForkHeight : Z;
  nDigishieldAveragingWindow : Z;
  nDigishieldTargetSpacing : Z;
  nPowTargetSpacing : Z;
  nZawyLwmaAveragingWindow : Z;
  nZawyLwmaAdjustedWeight : Z;
  nZawyLwmaMinDenominator : Z;
  bZawyLwmaSolvetimeLimitation : bool
}.

(** Modelled from the spec: "DigishieldAveragingWindowTimespan() =
    W * nDigishieldTargetSpacing". *)
Definition DigishieldAveragingWindowTimespan (params : Params) : Z :=
  nDigishieldAveragingWindow params * nDigishieldTargetSpacing params.

(** Modelled from the spec: "DigishieldMinActualTimespan() =
    (W * nDigishieldTargetSpacing * (100 - 16)) / 100". *)
Definition DigishieldMinActualTimespan (params : Params) : Z :=
  Z.quot (DigishieldAveragingWindowTimespan params * (100 - 16)) 100.

(** Modelled from the spec: "DigishieldMaxActualTimespan() =
    (W * nDigishieldTargetSpacing * (100 + 32)) / 100". *)
Definition DigishieldMaxActualTimespan (params : Params) : Z :=
  Z.quot (DigishieldAveragingWindowTimespan params * (100 + 32)) 100.

End Consensus.
Import Consensus.

(** ** pow.cpp: Digishield v3 *)

Definition target_of (nBits : Z) : Z := target (SetCompact nBits).

(** The averaging loop of DigishieldGetNextWorkRequired:
    [for (i = 0; pindexFirst && i < W; i++) { bnTot += target; pindexFirst = pindexFirst->pprev; }]
    It returns the final [pindexFirst], [i] and [bnTot]. *)
Fixpoint DigishieldAveragingLoop (W : Z) (pindexFirst : pindex) (i bnTot : Z)
  : pindex * Z * Z :=
  match pindexFirst with
  | [] => ([], i, bnTot)
  | b :: prev =>
      if i <? W
      then DigishieldAveragingLoop W prev (i + 1)
             (U256.add bnTot (target_of (CBlockIndex.nBits b)))
      else (pindexFirst, i, bnTot)
  end.

Definition DigishieldCalculateNextWorkRequired
  (pindexLast : pindex) (bnAvg nFirstBlockTime : Z) (params : Params) : outcome Z :=
  last <- deref pindexLast ;;
  if fPowNoRetargeting params then Ok (CBlockIndex.nBits last)
  else
    (* Use medians to prevent time-warp attacks *)
    let nActualTimespan := GetMedianTimePast pindexLast - nFirstBlockTime in
    let nActualTimespan :=
      DigishieldAveragingWindowTimespan params
      + Z.quot (nActualTimespan - DigishieldAveragingWindowTimespan params) 4 in
    (* Limit adjustment step *)
    let nActualTimespan :=
      if nActualTimespan <? DigishieldMinActualTimespan params
      then DigishieldMinActualTimespan params else nActualTimespan in
    let nActualTimespan :=
      if nActualTimespan >? DigishieldMaxActualTimespan params
      then DigishieldMaxActualTimespan params else nActualTimespan in
    (* Retarget *)
    let bnPowLimit := UintToArith256 (powLimit params) in
    bnNew <- U256.div bnAvg (U256.of_uint64 (DigishieldAveragingWindowTimespan params)) ;;
    let bnNew := U256.mul bnNew (U256.of_uint64 nActualTimespan) in
    let bnNew := if bnNew >? bnPowLimit then bnPowLimit else bnNew in
    Ok (GetCompact bnNew).

(** The fork-reset test of DigishieldGetNextWorkRequired. *)
Definition DigishieldResetWindow (nHeight : Z) (params : Params) : bool :=
  match NetworkIDString params with
  | MAIN =>
      (nHeight + 1 >=? 95005)
      && (nHeight <? nEquihashForkHeight params + nDigishieldAveragingWindow params)
  | _ =>
      (nHeight + 1 >=? nEquihashForkHeight params)
      && (nHeight <? nEquihashForkHeight params + nDigishieldAveragingWindow params)
  end.

(** The testnet rule of DigishieldGetNextWorkRequired:
    [fPowAllowMinDifficultyBlocks && pblock && pblock->GetBlockTime() > ...]. *)
Definition DigishieldMinDifficultyEscape
  (last : CBlockIndex.t) (pblock : option CBlockHeader.t) (params : Params) : bool :=
  fPowAllowMinDifficultyBlocks params
  && match pblock with
     | Some b =>
         CBlockHeader.GetBlockTime b
         >? CBlockIndex.GetBlockTime last + nDigishieldTargetSpacing params * 6
     | None => false
     end.

Definition DigishieldGetNextWorkRequired
  (pindexLast : pindex) (pblock : option CBlockHeader.t) (params : Params) : outcome Z :=
  _ <- assert_ (negb (is_null pindexLast)) ;;
  let nProofOfWorkLimit := GetCompact (UintToArith256 (powLimit params)) in
  (* Genesis block *)
  if is_null pindexLast then Ok nProofOfWorkLimit
  else
    last <- deref pindexLast ;;
    if DigishieldMinDifficultyEscape last pblock params
    then Ok nProofOfWorkLimit
    else if DigishieldResetWindow (CBlockIndex.nHeight last) params
    then Ok nProofOfWorkLimit
    else
      (* Find the first block in the averaging interval *)
      let '(pindexFirst, _, bnTot) :=
        DigishieldAveragingLoop (nDigishieldAveragingWindow params) pindexLast 0 0 in
      (* Check we have enough blocks *)
      if is_null pindexFirst then Ok nProofOfWorkLimit
      else
        bnAvg <- U256.div bnTot (U256.of_uint64 (nDigishieldAveragingWindow params)) ;;
        DigishieldCalculateNextWorkRequired pindexLast bnAvg
          (GetMedianTimePast pindexFirst) params.

(** ** pow.cpp: Zawy's LWMA *)

Record lwma_state : Type := mkLwma {
  lwma_t : Z;            (* int t *)
  lwma_j : Z;            (* int j *)
  lwma_sum_target : Z    (* arith_uint256 sum_target *)
}.

(** One iteration of the loop of LwmaCalculateNextWorkRequired. *)
Definition LwmaLoopBody (pindexLast : pindex) (params : Params)
  (st : lwma_state) (i : Z) : outcome lwma_state :=
  let T := nPowTargetSpacing params in
  let N := nZawyLwmaAveragingWindow params in
  let k := nZawyLwmaAdjustedWeight params in
  let limit_st := bZawyLwmaSolvetimeLimitation params in
  block <- GetAncestor pindexLast i ;;
  block_Prev <- GetAncestor block (i - 1) ;;
  b <- deref block ;;
  bp <- deref block_Prev ;;
  let solvetime := CBlockIndex.GetBlockTime b - CBlockIndex.GetBlockTime bp in
  let solvetime := if limit_st && (solvetime >? 6 * T) then 6 * T else solvetime in
  let j := lwma_j st + 1 in
  let t := to_int32 (lwma_t st + solvetime * j) in  (* Weighted solvetime sum. *)
  (* Target sum divided by a factor, (k N^2). *)
  let target := target_of (CBlockIndex.nBits b) in
  q <- U256.div target (U256.of_uint64 (k * N * N)) ;;
  Ok (mkLwma t j (U256.add (lwma_sum_target st) q)).

Fixpoint LwmaLoop (pindexLast : pindex) (params : Params)
  (heights : list Z) (st : lwma_state) : outcome lwma_state :=
  match heights with
  | [] => Ok st
  | i :: rest =>
      st' <- LwmaLoopBody pindexLast params st i ;;
      LwmaLoop pindexLast params rest st'
  end.

(** The values of [i] in [for (int i = lo; i < hi; i++)]. *)
Definition for_range (lo hi : Z) : list Z :=
  map (fun n => lo + Z.of_nat n) (seq 0 (Z.to_nat (hi - lo))).

Definition int_div (a b : Z) : outcome Z :=
  if b =? 0 then Fault IntDivByZero else Ok (Z.quot a b).

Definition LwmaCalculateNextWorkRequired (pindexLast : pindex) (params : Params)
  : outcome Z :=
  last <- deref pindexLast ;;
  if fPowNoRetargeting params then Ok (CBlockIndex.nBits last)
  else
    let height := CBlockIndex.nHeight last + 1 in
    let N := nZawyLwmaAveragingWindow params in
    let k := nZawyLwmaAdjustedWeight params in
    let dnorm := nZawyLwmaMinDenominator params in
    _ <- assert_ (height >? N) ;;
    (* Loop through N most recent blocks. *)
    st <- LwmaLoop pindexLast params (for_range (height - N) height) (mkLwma 0 0 0) ;;
    (* Keep t reasonable in case strange solvetimes occurred. *)
    floor <- int_div (N * k) dnorm ;;
    let t := if lwma_t st <? floor then floor else lwma_t st in
    let pow_limit := UintToArith256 (powLimit params) in
    let next_target := U256.mul (U256.of_uint64 t) (lwma_sum_target st) in
    let next_target := if next_target >? pow_limit then pow_limit else next_target in
    Ok (GetCompact next_target).

Definition LwmaGetNextWorkRequired
  (pindexLast : pindex) (pblock : option CBlockHeader.t) (params : Params) : outcome Z :=
  late <-
    (if fPowAllowMinDifficultyBlocks params
     then
       b <- deref_opt pblock ;;
       last <- deref pindexLast ;;
       Ok (CBlockHeader.GetBlockTime b
           >? CBlockIndex.GetBlockTime last + nPowTargetSpacing params * 2)
     else Ok false) ;;
  if late then Ok (GetCompact (UintToArith256 (powLimit params)))
  else LwmaCalculateNextWorkRequired pindexLast params.

(** ** pow.cpp: algorithm selection *)

Definition GetNextWorkRequired
  (pindexLast : pindex) (pblock : option CBlockHeader.t) (params : Params) : outcome Z :=
  _ <- assert_ (negb (is_null pindexLast)) ;;
  last <- deref pindexLast ;;
  let nHeight := CBlockIndex.nHeight last + 1 in
  if nHeight <? nZawyLWMAHeight params
  then DigishieldGetNextWorkRequired pindexLast pblock params   (* Regular Digishield v3. *)
  else LwmaGetNextWorkRequired pindexLast pblock params.        (* Zawy's LWMA. *)

(** ** pow.cpp: header validation *)

Definition CheckProofOfWork (hash nBits : Z) (params : Params) : bool :=
  let d := SetCompact nBits in
  let bnTarget := target d in
  (* Check range *)
  if fNegative d || (bnTarget =? 0) || fOverflow d
     || (bnTarget >? UintToArith256 (powLimit params))
  then false
  (* Check proof of work matches claimed amount *)
  else if UintToArith256 hash >? bnTarget then false
  else true.

(** ** pow.cpp: Equihash solution check *)

Definition byte_of_Z (x : Z) : Byte.byte :=
  match Byte.of_N (Z.to_N (x mod 256)) with
  | Some b => b
  | None => Byte.x00
  end.

(** [n] bytes of [x], least significant first. *)
Fixpoint le_bytes (n : nat) (x : Z) : list Byte.byte :=
  match n with
  | O => []
  | S n' => byte_of_Z x :: le_bytes n' (x / 256)
  end.

(** Modelled from the spec: the serialisation of CEquihashInput
    (primitives/block.h is not among the sources), section 6:
    "version | hashPrevBlock | hashMerkleRoot | hashReserved | nTime | nBits,
    each field little-endian, fixed widths 4|32|32|32|4|4 bytes". *)
Definition CEquihashInput (h : CBlockHeader.t) : list Byte.byte :=
  le_bytes 4 (CBlockHeader.nVersion h)
  ++ le_bytes 32 (CBlockHeader.hashPrevBlock h)
  ++ le_bytes 32 (CBlockHeader.hashMerkleRoot h)
  ++ le_bytes 32 (CBlockHeader.hashReserved h)
  ++ le_bytes 4 (CBlockHeader.nTime h)
  ++ le_bytes 4 (CBlockHeader.nBits h).

Section Equihash.

(** The collaborators of crypto/equihash.h: the BLAKE2b state, its
    personalised initialisation and update, and the verifier. *)
Variable blake2b_state : Type.
Variable EhInitialiseState : Z -> Z -> blake2b_state.
Variable blake2b_update : blake2b_state -> list Byte.byte -> blake2b_state.
Variable EhIsValidSolution : Z -> Z -> blake2b_state -> list Byte.byte -> bool.

(** One invocation of the verifier, with its arguments. *)
Record EhCall : Type := mkEhCall {
  call_n : Z;
  call_k : Z;
  call_state : blake2b_state;
  call_soln : list Byte.byte
}.

(** The result together with the verifier invocations made, in order. *)
Definition CheckEquihashSolution (pblock : CBlockHeader.t) : bool * list EhCall :=
  let nSolSize := Z.of_nat (length (CBlockHeader.nSolution pblock)) in
  (* Derive n, k from the solution size *)
  let nk :=
    if nSolSize =? 1344 then Some (200, 9)      (* mainnet and testnet genesis *)
    else if nSolSize =? 36 then Some (48, 5)    (* regtest genesis *)
    else if nSolSize =? 400 then Some (192, 7)
    else if nSolSize =? 100 then Some (144, 5)
    else if nSolSize =? 68 then Some (96, 5)
    else None in
  match nk with
  | None => (false, [])                         (* return error(...) *)
  | Some (n, k) =>
      (* Hash state *)
      let state := EhInitialiseState n k in
      (* I||V *)
      let ss := CEquihashInput pblock ++ le_bytes 32 (CBlockHeader.nNonce pblock) in
      (* H(I||V||... *)
      let state := blake2b_update state ss in
      let call := mkEhCall n k state (CBlockHeader.nSolution pblock) in
      (EhIsValidSolution n k state (CBlockHeader.nSolution pblock), [call])
  end.

End Equihash.
Arguments mkEhCall {blake2b_state}.
Arguments call_n {blake2b_state}.
Arguments call_k {blake2b_state}.

(** ** Reference definitions, in the specification's words *)

(** Section 4.E.2, the table from [len(nSolution)] to [(n, k)]. *)
Definition EquihashParamsByLength (len : Z) : option (Z * Z) :=
  if len =? 1344 then Some (200, 9)
  else if len =? 400 then Some (192, 7)
  else if len =? 100 then Some (144, 5)
  else if len =? 68 then Some (96, 5)
  else if len =? 36 then Some (48, 5)
  else None.

(** Section 4.D.1: the averaging window is the [W] entries, from the
    parent back, whose decoded targets are summed. *)
Definition DigishieldWindow (W : Z) (p : pindex) : pindex := firstn (Z.to_nat W) p.

Definition SumTargets (l : pindex) : Z :=
  fold_left (fun acc b => U256.add acc (target_of (CBlockIndex.nBits b))) l 0.

(** The oldest entry of the window, as a pointer. *)
Definition DigishieldOldestInWindow (W : Z) (p : pindex) : pindex :=
  skipn (Z.to_nat (W - 1)) p.

(** Section 4.D.2 step 3: the solvetime at height [i] and the weighted sum
    [t = sum of solvetime_i * j], in unbounded integers. *)
Definition block_at (p : pindex) (height : Z) : option CBlockIndex.t :=
  match p with
  | [] => None
  | last :: _ => nth_error p (Z.to_nat (CBlockIndex.nHeight last - height))
  end.

Definition time_at (p : pindex) (height : Z) : Z :=
  match block_at p height with
  | Some b => CBlockIndex.GetBlockTime b
  | None => 0
  end.

Definition solvetime_at (p : pindex) (params : Params) (i : Z) : Z :=
  let solvetime := time_at p i - time_at p (i - 1) in
  if bZawyLwmaSolvetimeLimitation params && (solvetime >? 6 * nPowTargetSpacing params)
  then 6 * nPowTargetSpacing params else solvetime.

Fixpoint WeightedSum (solvetimes : list Z) (j : Z) : Z :=
  match solvetimes with
  | [] => 0
  | s :: rest => s * (j + 1) + WeightedSum rest (j + 1)
  end.

Definition LwmaWindowHeights (p : pindex) (params : Params) : list Z :=
  match p with
  | [] => []
  | last :: _ =>
      let height := CBlockIndex.nHeight last + 1 in
      for_range (height - nZawyLwmaAveragingWindow params) height
  end.

Definition LwmaExactWeightedSum (p : pindex) (params : Params) : Z :=
  WeightedSum (map (solvetime_at p params) (LwmaWindowHeights p params)) 0.

(** ** Concrete inputs *)

(** The index built from [(nBits, nTime)] pairs listed from the genesis up. *)
Definition index_of (blocks : list (Z * Z)) : pindex :=
  fold_left
    (fun acc b => CBlockIndex.mk (Z.of_nat (length acc)) (fst b) (snd b) :: acc)
    blocks [].

(** [n] blocks with the same [nBits], [spacing] seconds apart. *)
Definition steady_blocks (n : nat) (nBits spacing : Z) : list (Z * Z) :=
  map (fun i => (nBits, 1500000000 + spacing * Z.of_nat i)) (seq 0 n).

Definition header_at (nTime : Z) : CBlockHeader.t :=
  CBlockHeader.mk 4 0 0 0 nTime 0x1f07ffff 0 [].

Definition example_powLimit : Z :=
  0x07ffffffffffffffffffffffffffffffffffffffffffffffffffffffffffffff.

(** A test network on Digishield (window 3) below height 1000. *)
Definition digishield_testnet : Params :=
  mkParams TEST example_powLimit false true 1000 5000 3 150 150 45 3927 3 true.

(** The main network on Digishield. *)
Definition digishield_mainnet : Params :=
  mkParams MAIN example_powLimit false false 1000 5000 3 150 150 45 3927 3 true.

(** A regtest-like bundle: no retargeting, min-difficulty blocks allowed. *)
Definition digishield_regtest : Params :=
  mkParams REGTEST example_powLimit true true 1000 5000 3 150 150 45 3927 3 true.

(** The same networks with LWMA active from the genesis on (window 3). *)
Definition lwma_testnet : Params :=
  mkParams TEST example_powLimit false true 0 5000 17 150 150 3 300 3 true.

Definition lwma_regtest : Params :=
  mkParams REGTEST example_powLimit true true 0 5000 17 150 150 3 300 3 true.

(** Three blocks [spacing] apart followed by one [gap] seconds later. *)
Definition stalled_blocks (gap : Z) : list (Z * Z) :=
  steady_blocks 3 0x1f07ffff 150 ++ [(0x1f07ffff, 1500000300 + gap)].

(** A chain whose second block carries a far too late timestamp. *)
Definition skewed_blocks : list (Z * Z) :=
  [(0x1f07ffff, 1500000000); (0x1f07ffff, 4000000000);
   (0x1f07ffff, 1500000300); (0x1f07ffff, 1500000450)].

(** LWMA without the solvetime limitation. *)
Definition lwma_unlimited : Params :=
  mkParams MAIN example_powLimit false false 0 5000 17 150 150 3 300 3 false.

(** The decoded target of the entry at a height, and the sum
    [sum_target = sum of target_i / (k * N * N)] of
    LwmaCalculateNextWorkRequired in unbounded integers. *)
Definition target_at (p : pindex) (height : Z) : Z :=
  match block_at p height with
  | Some b => target_of (CBlockIndex.nBits b)
  | None => 0
  end.

Fixpoint Zsum (l : list Z) : Z :=
  match l with
  | [] => 0
  | x :: rest => x + Zsum rest
  end.

Definition LwmaDivisor (params : Params) : Z :=
  to_uint64 (nZawyLwmaAdjustedWeight params * nZawyLwmaAveragingWindow params
             * nZawyLwmaAveragingWindow params).

Definition LwmaExactTargetSum (p : pindex) (params : Params) : Z :=
  Zsum (map (fun i => target_at p i / LwmaDivisor params) (LwmaWindowHeights p params)).

(** ** interfaces/wallet.h: the collection of wallet balances *)

Module WalletBalances.

Record t : Type := mk {
  balance : Z;                                   (* CAmount, an int64_t *)
  coinbase_balance : Z;
  shielded_balance : Z;
  unconfirmed_balance : Z;
  unconfirmed_coinbase_balance : Z;
  unconfirmed_shielded_balance : Z;
  immature_balance : Z;
  immature_shielded_balance : Z;
  have_watch_only : bool;
  watch_only_balance : Z;
  watch_only_coinbase_balance : Z;
  watch_only_shielded_balance : Z;
  unconfirmed_watch_only_balance : Z;
  unconfirmed_watch_only_coinbase_balance : Z;
  unconfirmed_watch_only_shielded_balance : Z;
  immature_watch_only_balance : Z;
  immature_watch_only_shielded_balance : Z
}.

Definition balanceChanged (this prev : t) : bool :=
  negb (balance this =? balance prev) ||
  negb (coinbase_balance this =? coinbase_balance prev) ||
  negb (shielded_balance this =? shielded_balance prev) ||
  negb (unconfirmed_balance this =? unconfirmed_balance prev) ||
  negb (unconfirmed_coinbase_balance this =? unconfirmed_coinbase_balance prev) ||
  negb (unconfirmed_shielded_balance this =? unconfirmed_shielded_balance prev) ||
  negb (immature_balance this =? immature_balance prev) ||
  negb (immature_shielded_balance this =? immature_shielded_balance prev) ||
  negb (watch_only_balance this =? watch_only_balance prev) ||
  negb (watch_only_coinbase_balance this =? watch_only_coinbase_balance prev) ||
  negb (watch_only_shielded_balance this =? watch_only_shielded_balance prev) ||
  negb (unconfirmed_watch_only_balance this =? unconfirmed_watch_only_balance prev) ||
  negb (unconfirmed_watch_only_coinbase_balance this
        =? unconfirmed_watch_only_coinbase_balance prev) ||
  negb (unconfirmed_watch_only_shielded_balance this
        =? unconfirmed_watch_only_shielded_balance prev) ||
  negb (immature_watch_only_balance this =? immature_watch_only_balance prev) ||
  negb (immature_watch_only_shielded_balance this
        =? immature_watch_only_shielded_balance prev).

(** The sixteen amounts, in declaration order. *)
Definition amounts (b : t) : list Z :=
  [balance b; coinbase_balance b; shielded_balance b; unconfirmed_balance b;
   unconfirmed_coinbase_balance b; unconfirmed_shielded_balance b;
   immature_balance b; immature_shielded_balance b;
   watch_only_balance b; watch_only_coinbase_balance b;
   watch_only_shielded_balance b; unconfirmed_watch_only_balance b;
   unconfirmed_watch_only_coinbase_balance b;
   unconfirmed_watch_only_shielded_balance b;
   immature_watch_only_balance b; immature_watch_only_shielded_balance b].

End WalletBalances.

(** * Properties *)

(** ** Codec examples (property P2 of the specification) *)

Example SetCompact_P2_valid :
  SetCompact 0x20000001 = mkDecoded (256^29) false false.
Proof. reflexivity. Qed.

Example SetCompact_P2_overflow : fOverflow (SetCompact 0x21010000) = true.
Proof. reflexivity. Qed.

Example GetCompact_regtest_limit :
  GetCompact 0x0f0f0f0f0f0f0f0f0f0f0f0f0f0f0f0f0f0f0f0f0f0f0f0f0f0f0f0f0f0f0f0f
  = 0x200f0f0f.
Proof. reflexivity. Qed.

Example GetCompact_sign_bump : GetCompact 0x800000 = 0x04008000.
Proof. reflexivity. Qed.

(** ** Bit-level facts used by the codec *)

Lemma land_pow2_eqb_0 (a n : Z) :
  0 <= n -> (Z.land a (2 ^ n) =? 0) = negb (Z.testbit a n).
Proof.
  intros Hn. destruct (Z.testbit a n) eqn:Hb; simpl.
  - apply Z.eqb_neq. intros H0.
    assert (Hc : Z.testbit (Z.land a (2 ^ n)) n = true).
    { rewrite Z.land_spec, Hb, Z.pow2_bits_true by assumption. reflexivity. }
    rewrite H0, Z.bits_0 in Hc. discriminate.
  - apply Z.eqb_eq. apply Z.bits_inj'. intros i Hi.
    rewrite Z.land_spec, Z.bits_0.
    destruct (Z.eq_dec n i) as [->|Hne].
    + rewrite Hb. reflexivity.
    + rewrite Z.pow2_bits_false by assumption. apply andb_false_r.
Qed.

Lemma testbit_top (a n : Z) :
  0 <= n -> 0 <= a < 2 ^ (n + 1) -> Z.testbit a n = (2 ^ n <=? a).
Proof.
  intros Hn Ha.
  assert (Hp : 0 < 2 ^ n) by (apply Z.pow_pos_nonneg; lia).
  assert (Hs : 2 ^ (n + 1) = 2 * 2 ^ n) by (rewrite Z.pow_add_r by lia; lia).
  pose proof (Z.testbit_spec' a n Hn) as Hb.
  destruct (Z.leb_spec (2 ^ n) a) as [Hle|Hlt].
  - assert (a / 2 ^ n = 1) by (symmetry; apply Z.div_unique with (r := a - 2 ^ n); lia).
    destruct (Z.testbit a n); [reflexivity|]. simpl in Hb. rewrite H in Hb. discriminate.
  - rewrite Z.div_small in Hb by lia.
    destruct (Z.testbit a n); [discriminate|reflexivity].
Qed.

Lemma lor_high_add (c e n : Z) :
  0 <= n -> 0 <= c < 2 ^ n -> 0 <= e -> Z.lor c (Z.shiftl e n) = c + e * 2 ^ n.
Proof.
  intros Hn Hc He. rewrite Z.shiftl_mul_pow2 by assumption.
  assert (Hl : Z.land c (e * 2 ^ n) = 0).
  { apply Z.bits_inj'. intros i Hi. rewrite Z.land_spec, Z.bits_0.
    destruct (Z.lt_ge_cases i n) as [Hlt|Hge].
    - rewrite Z.mul_pow2_bits_low by assumption. apply andb_false_r.
    - destruct (Z.eq_dec c 0) as [->|Hc0]; [rewrite Z.bits_0; reflexivity|].
      rewrite (Z.bits_above_log2 c i); [reflexivity|lia|].
      apply Z.lt_le_trans with n; [|assumption].
      apply Z.log2_lt_pow2; lia. }
  pose proof (Z.add_lor_land c (e * 2 ^ n)). lia.
Qed.

(** ** The codec never rounds up *)

Lemma compact_size_bounds (a : Z) :
  0 <= a < U256.modulus ->
  let nSize := (U256.bits a + 7) / 8 in
  0 <= nSize <= 32 /\ a < 2 ^ (8 * nSize).
Proof.
  intros Ha nSize. subst nSize. unfold U256.bits, U256.modulus in *.
  destruct (Z.eqb_spec a 0) as [->|Hne].
  - change ((0 + 7) / 8) with 0. split; [lia|reflexivity].
  - assert (Hpos : 0 < a) by lia.
    pose proof (Z.log2_spec a Hpos) as [_ Hhi].
    assert (Hlog : Z.log2 a < 256) by (apply Z.log2_lt_pow2; lia).
    pose proof (Z.log2_nonneg a) as Hl0.
    set (b := Z.log2 a + 1) in *.
    assert (Hdiv : b <= 8 * ((b + 7) / 8)).
    { pose proof (Z.div_mod (b + 7) 8 ltac:(lia)).
      pose proof (Z.mod_pos_bound (b + 7) 8 ltac:(lia)). lia. }
    split.
    + split; [apply Z.div_pos; lia|].
      enough ((b + 7) / 8 < 33) by lia.
      apply Z.div_lt_upper_bound; lia.
    + apply Z.lt_le_trans with (2 ^ b).
      * replace b with (Z.succ (Z.log2 a)) by (subst b; lia). exact Hhi.
      * apply Z.pow_le_mono_r; lia.
Qed.

Lemma SetCompact_assembled (c e : Z) :
  0 <= c < 2 ^ 23 -> 0 <= e < 256 ->
  target_of (Z.lor c (to_uint32 (Z.shiftl e 24)))
  = if e <=? 3 then U256.shiftr c (8 * (3 - e)) else U256.shiftl c (8 * (e - 3)).
Proof.
  intros Hc He. unfold target_of, SetCompact, to_uint32. cbn [target].
  assert (Hsh : Z.shiftl e 24 mod 2 ^ 32 = Z.shiftl e 24).
  { rewrite Z.shiftl_mul_pow2 by lia. apply Z.mod_small.
    change (2 ^ 32) with (256 * 2 ^ 24). nia. }
  rewrite Hsh, lor_high_add by lia.
  assert (Hsize : Z.shiftr (c + e * 2 ^ 24) 24 = e).
  { rewrite Z.shiftr_div_pow2, Z.div_add, Z.div_small by lia. lia. }
  assert (Hword : Z.land (c + e * 2 ^ 24) 0x007fffff = c).
  { change 0x007fffff with (Z.ones 23). rewrite Z.land_ones by lia.
    change (2 ^ 24) with (2 * 2 ^ 23).
    replace (c + e * (2 * 2 ^ 23)) with (c + (e * 2) * 2 ^ 23) by lia.
    rewrite Z.mod_add, Z.mod_small by lia. reflexivity. }
  rewrite Hsize, Hword. unfold U256.shiftr.
  destruct (e <=? 3); reflexivity.
Qed.

Lemma floor_multiple_le (a s : Z) :
  0 <= a < U256.modulus -> 0 <= s ->
  0 <= U256.shiftl (Z.shiftr a s) s <= a.
Proof.
  intros Ha Hs. unfold U256.shiftl, U256.wrap.
  rewrite Z.shiftl_mul_pow2, Z.shiftr_div_pow2 by assumption.
  assert (Hp : 0 < 2 ^ s) by (apply Z.pow_pos_nonneg; lia).
  pose proof (Z.mul_div_le a (2 ^ s) Hp).
  assert (0 <= a / 2 ^ s) by (apply Z.div_pos; lia).
  rewrite Z.mod_small; nia.
Qed.

Lemma GetCompact_never_rounds_up (a : Z) :
  0 <= a < U256.modulus -> 0 <= target_of (GetCompact a) <= a.
Proof.
  intros Ha. pose proof (compact_size_bounds a Ha) as [Hn Hlt].
  unfold GetCompact. set (nSize := (U256.bits a + 7) / 8) in *.
  clearbody nSize.
  set (c0 := if nSize <=? 3
             then to_uint32 (Z.shiftl (U256.GetLow64 a) (8 * (3 - nSize)))
             else to_uint32 (U256.GetLow64 (U256.shiftr a (8 * (nSize - 3))))).
  assert (Hc0 : 0 <= c0 < 2 ^ 24 /\
                if nSize <=? 3 then c0 = a * 2 ^ (8 * (3 - nSize))
                else c0 = a / 2 ^ (8 * (nSize - 3))).
  { subst c0. unfold to_uint32, U256.GetLow64, to_uint64, U256.shiftr.
    destruct (Z.leb_spec nSize 3) as [Hle|Hgt].
    - assert (Hs : a * 2 ^ (8 * (3 - nSize)) < 2 ^ 24).
      { replace 24 with (8 * nSize + 8 * (3 - nSize)) by lia.
        rewrite Z.pow_add_r by lia.
        apply Z.mul_lt_mono_pos_r; [apply Z.pow_pos_nonneg; lia|assumption]. }
      assert (Ha24 : a < 2 ^ 24).
      { apply Z.lt_le_trans with (2 ^ (8 * nSize)); [assumption|].
        apply Z.pow_le_mono_r; lia. }
      assert (0 <= a * 2 ^ (8 * (3 - nSize))) by (apply Z.mul_nonneg_nonneg; [lia|apply Z.pow_nonneg; lia]).
      rewrite (Z.mod_small a) by lia.
      rewrite Z.shiftl_mul_pow2 by lia.
      generalize dependent (a * 2 ^ (8 * (3 - nSize))). intros q Hq Hq0.
      rewrite Z.mod_small by lia. lia.
    - rewrite Z.shiftr_div_pow2 by lia.
      assert (Hp : 0 < 2 ^ (8 * (nSize - 3))) by (apply Z.pow_pos_nonneg; lia).
      assert (Hq : a / 2 ^ (8 * (nSize - 3)) < 2 ^ 24).
      { apply Z.div_lt_upper_bound; [assumption|].
        rewrite <- Z.pow_add_r by lia.
        replace (8 * (nSize - 3) + 24) with (8 * nSize) by lia. assumption. }
      assert (0 <= a / 2 ^ (8 * (nSize - 3))) by (apply Z.div_pos; lia).
      generalize dependent (a / 2 ^ (8 * (nSize - 3))). intros q Hq Hq0.
      rewrite (Z.mod_small q (2 ^ 64)) by lia.
      rewrite Z.mod_small by lia. lia. }
  destruct Hc0 as [Hr Hv]. clearbody c0.
  change 0x00800000 with (2 ^ 23).
  rewrite land_pow2_eqb_0, negb_involutive, (testbit_top c0 23) by (simpl; lia).
  destruct (Z.leb_spec (2 ^ 23) c0) as [Hbig|Hsmall].
  - (* the sign bit would be set: one more byte is dropped *)
    assert (Hc8 : 0 <= Z.shiftr c0 8 < 2 ^ 23).
    { rewrite Z.shiftr_div_pow2 by lia. split; [apply Z.div_pos; lia|].
      apply Z.div_lt_upper_bound; lia. }
    rewrite SetCompact_assembled by lia.
    destruct (Z.leb_spec nSize 3) as [Hle|Hgt].
    + destruct (Z.leb_spec (nSize + 1) 3) as [Hle'|Hgt'].
      * unfold U256.shiftr. rewrite Z.shiftr_shiftr by lia.
        replace (8 + 8 * (3 - (nSize + 1))) with (8 * (3 - nSize)) by lia.
        rewrite Hv, Z.shiftr_div_pow2, Z.div_mul by
          (try lia; apply Z.pow_nonzero; lia). lia.
      * assert (nSize = 3) by lia. subst nSize.
        change (8 * (3 - 3)) with 0 in Hv. rewrite Z.pow_0_r, Z.mul_1_r in Hv.
        subst c0. change (8 * (3 + 1 - 3)) with 8.
        apply floor_multiple_le; lia.
    + destruct (Z.leb_spec (nSize + 1) 3) as [Hle'|Hgt']; [lia|].
      rewrite Hv, <- Z.shiftr_div_pow2, Z.shiftr_shiftr by lia.
      replace (8 * (nSize - 3) + 8) with (8 * (nSize + 1 - 3)) by lia.
      apply floor_multiple_le; lia.
  - rewrite SetCompact_assembled by lia.
    destruct (Z.leb_spec nSize 3) as [Hle|Hgt].
    + unfold U256.shiftr.
      rewrite Hv, Z.shiftr_div_pow2, Z.div_mul by
        (try lia; apply Z.pow_nonzero; lia). lia.
    + rewrite Hv, <- Z.shiftr_div_pow2 by lia.
      apply floor_multiple_le; lia.
Qed.

(** ** CheckProofOfWork *)

(** C1: CheckProofOfWork returns true exactly when the compact decodes
    without the negative and overflow flags to a nonzero target, that
    target is at most powLimit, and the 256-bit value of the hash is at
    most that target; in every other case it returns false. *)
Theorem CheckProofOfWork_iff (hash nBits : Z) (params : Params) :
  let d := SetCompact nBits in
  let accepted :=
    (fNegative d = false /\ fOverflow d = false /\ target d <> 0)
    /\ target d <= UintToArith256 (powLimit params)
    /\ UintToArith256 hash <= target d in
  (CheckProofOfWork hash nBits params = true <-> accepted)
  /\ (CheckProofOfWork hash nBits params = false <-> ~ accepted).
Proof.
  cbv zeta. unfold CheckProofOfWork.
  destruct (fNegative (SetCompact nBits)), (fOverflow (SetCompact nBits));
    destruct (Z.eqb_spec (target (SetCompact nBits)) 0);
    destruct (Z.gtb_spec (target (SetCompact nBits)) (UintToArith256 (powLimit params)));
    destruct (Z.gtb_spec (UintToArith256 hash) (target (SetCompact nBits)));
    cbn [orb]; intuition (try discriminate; try lia).
Qed.

(** Scenario 6 of the specification: a hash equal to the target passes, one
    above it does not. *)
Example CheckProofOfWork_boundary :
  CheckProofOfWork (target_of 0x1f07ffff) 0x1f07ffff digishield_testnet = true
  /\ CheckProofOfWork (target_of 0x1f07ffff + 1) 0x1f07ffff digishield_testnet = false.
Proof. split; reflexivity. Qed.

(** ** CheckEquihashSolution *)

(** C8: the Equihash parameters depend on the byte length of nSolution
    alone, by the specification's table; the verifier is invoked once, with
    those parameters, for a listed length and not at all for any other
    length, where the result is false. *)
Theorem CheckEquihashSolution_by_length
  (blake2b_state : Type)
  (EhInitialiseState : Z -> Z -> blake2b_state)
  (blake2b_update : blake2b_state -> list Byte.byte -> blake2b_state)
  (EhIsValidSolution : Z -> Z -> blake2b_state -> list Byte.byte -> bool)
  (pblock : CBlockHeader.t) :
  let run := CheckEquihashSolution blake2b_state EhInitialiseState blake2b_update
               EhIsValidSolution pblock in
  let soln := CBlockHeader.nSolution pblock in
  match EquihashParamsByLength (Z.of_nat (length soln)) with
  | Some (n, k) =>
      let state :=
        blake2b_update (EhInitialiseState n k)
          (CEquihashInput pblock ++ le_bytes 32 (CBlockHeader.nNonce pblock)) in
      run = (EhIsValidSolution n k state soln, [mkEhCall n k state soln])
  | None => run = (false, [])
  end.
Proof.
  cbv zeta. unfold CheckEquihashSolution, EquihashParamsByLength.
  set (len := Z.of_nat (length (CBlockHeader.nSolution pblock))).
  destruct (Z.eqb_spec len 1344) as [E|_]; [try rewrite E; reflexivity|].
  destruct (Z.eqb_spec len 400) as [E|_]; [try rewrite E; reflexivity|].
  destruct (Z.eqb_spec len 100) as [E|_]; [try rewrite E; reflexivity|].
  destruct (Z.eqb_spec len 68) as [E|_]; [try rewrite E; reflexivity|].
  destruct (Z.eqb_spec len 36) as [E|_]; [try rewrite E; reflexivity|].
  reflexivity.
Qed.

Example EquihashParamsByLength_table :
  map EquihashParamsByLength [1344; 400; 100; 68; 36; 0; 1343; 1345]
  = [Some (200, 9); Some (192, 7); Some (144, 5); Some (96, 5); Some (48, 5);
     None; None; None].
Proof. reflexivity. Qed.

(** ** The averaging loop of Digishield *)

Lemma DigishieldAveragingLoop_spec (W : Z) (p : pindex) :
  forall i bnTot,
    let n := Z.to_nat (W - i) in
    DigishieldAveragingLoop W p i bnTot
    = (skipn n p, i + Z.of_nat (Nat.min n (length p)),
       fold_left (fun acc b => U256.add acc (target_of (CBlockIndex.nBits b)))
         (firstn n p) bnTot).
Proof.
  induction p as [|b prev IH]; intros i bnTot n; subst n; cbn [DigishieldAveragingLoop].
  - rewrite skipn_nil, firstn_nil, Nat.min_0_r. cbn. f_equal. f_equal. lia.
  - destruct (Z.ltb_spec i W) as [Hlt|Hge].
    + rewrite IH. replace (Z.to_nat (W - i)) with (S (Z.to_nat (W - (i + 1)))) by lia.
      cbn [skipn firstn fold_left length Nat.min]. f_equal. f_equal. lia.
    + replace (Z.to_nat (W - i)) with 0%nat by lia. cbn. f_equal. f_equal. lia.
Qed.

Lemma DigishieldAveragingLoop_start (W : Z) (p : pindex) :
  DigishieldAveragingLoop W p 0 0
  = (skipn (Z.to_nat W) p,
     Z.of_nat (Nat.min (Z.to_nat W) (length p)),
     SumTargets (DigishieldWindow W p)).
Proof.
  rewrite DigishieldAveragingLoop_spec. cbv zeta.
  rewrite Z.sub_0_r. reflexivity.
Qed.

Lemma skipn_is_null {A : Type} (n : nat) (l : list A) :
  match skipn n l with [] => true | _ :: _ => false end = (length l <=? n)%nat.
Proof.
  revert l. induction n as [|n IH]; intros [|x l]; cbn; try reflexivity. apply IH.
Qed.

(** ** The absent parent *)

(** C5, as the claim states it, fails: the genesis call does not return
    the compact of powLimit. *)
Lemma genesis_call_counterexample :
  GetNextWorkRequired [] None digishield_mainnet
  <> Ok (GetCompact (UintToArith256 (powLimit digishield_mainnet))).
Proof. vm_compute. discriminate. Qed.

(** C5 (amended): with an absent parent index nextWorkRequired stops on its
    entry assertion [pindexLast != nullptr], and so does the Digishield
    engine when called directly; the genesis branch that would return the
    compact of powLimit is placed after that assertion and is never
    reached. *)
Theorem genesis_call_aborts (pblock : option CBlockHeader.t) (params : Params) :
  GetNextWorkRequired [] pblock params = Fault AssertionFailed
  /\ DigishieldGetNextWorkRequired [] pblock params = Fault AssertionFailed.
Proof. split; reflexivity. Qed.

(** ** Order of the early rules *)

(** C9: in both algorithms the min-difficulty escape is evaluated before
    the fPowNoRetargeting rule: with both flags set and a candidate later
    than the parent by more than 6 * nDigishieldTargetSpacing (Digishield)
    or 2 * nPowTargetSpacing (LWMA), the result is the compact of
    powLimit. *)
Theorem min_difficulty_escape_before_no_retargeting
  (last : CBlockIndex.t) (rest : pindex) (b : CBlockHeader.t) (params : Params) :
  fPowAllowMinDifficultyBlocks params = true ->
  fPowNoRetargeting params = true ->
  (CBlockHeader.GetBlockTime b
     > CBlockIndex.GetBlockTime last + nDigishieldTargetSpacing params * 6 ->
   DigishieldGetNextWorkRequired (last :: rest) (Some b) params
   = Ok (GetCompact (UintToArith256 (powLimit params))))
  /\ (CBlockHeader.GetBlockTime b
        > CBlockIndex.GetBlockTime last + nPowTargetSpacing params * 2 ->
      LwmaGetNextWorkRequired (last :: rest) (Some b) params
      = Ok (GetCompact (UintToArith256 (powLimit params)))).
Proof.
  intros Hmin _. split; intros Hlate.
  - unfold DigishieldGetNextWorkRequired, DigishieldMinDifficultyEscape.
    cbn [is_null negb assert_ bind deref]. rewrite Hmin. cbn [andb].
    destruct (Z.gtb_spec (CBlockHeader.GetBlockTime b)
                (CBlockIndex.GetBlockTime last + nDigishieldTargetSpacing params * 6));
      [reflexivity|lia].
  - unfold LwmaGetNextWorkRequired. rewrite Hmin. cbn [deref_opt deref bind].
    destruct (Z.gtb_spec (CBlockHeader.GetBlockTime b)
                (CBlockIndex.GetBlockTime last + nPowTargetSpacing params * 2));
      [reflexivity|lia].
Qed.

Lemma min_difficulty_escape_before_no_retargeting_witness :
  let last := CBlockIndex.mk 5 0x1f07ffff 1500000750 in
  let rest := index_of (steady_blocks 5 0x1f07ffff 150) in
  DigishieldGetNextWorkRequired (last :: rest) (Some (header_at 1500002000)) digishield_regtest
  = Ok 0x2007ffff
  /\ LwmaGetNextWorkRequired (last :: rest) (Some (header_at 1500002000)) lwma_regtest
     = Ok 0x2007ffff.
Proof.
  intros last rest. split.
  - apply (min_difficulty_escape_before_no_retargeting last rest
             (header_at 1500002000) digishield_regtest); [reflexivity|reflexivity|].
    vm_compute. reflexivity.
  - apply (min_difficulty_escape_before_no_retargeting last rest
             (header_at 1500002000) lwma_regtest); [reflexivity|reflexivity|].
    vm_compute. reflexivity.
Defined.

(** ** The absent candidate header *)

Lemma DigishieldCalculate_no_null_read
  (last : CBlockIndex.t) (rest : pindex) (bnAvg nFirstBlockTime : Z) (params : Params) :
  DigishieldCalculateNextWorkRequired (last :: rest) bnAvg nFirstBlockTime params
  <> Fault NullDereference.
Proof.
  unfold DigishieldCalculateNextWorkRequired, U256.div. cbn [deref bind].
  destruct (fPowNoRetargeting params); [discriminate|].
  destruct (_ =? 0); cbn [bind]; discriminate.
Qed.

Lemma Digishield_no_null_read
  (pindexLast : pindex) (pblock : option CBlockHeader.t) (params : Params) :
  DigishieldGetNextWorkRequired pindexLast pblock params <> Fault NullDereference.
Proof.
  unfold DigishieldGetNextWorkRequired.
  destruct pindexLast as [|last rest]; cbn [is_null negb assert_ bind deref];
    [discriminate|].
  destruct (DigishieldMinDifficultyEscape last pblock params); [discriminate|].
  destruct (DigishieldResetWindow (CBlockIndex.nHeight last) params); [discriminate|].
  destruct (DigishieldAveragingLoop _ _ _ _) as [[pindexFirst i] bnTot].
  destruct (is_null pindexFirst); [discriminate|].
  unfold U256.div. destruct (_ =? 0); cbn [bind]; [discriminate|].
  apply DigishieldCalculate_no_null_read.
Qed.

(** C10: when fPowAllowMinDifficultyBlocks is set, the LWMA entry point
    reads the candidate header's time before anything else, so that an
    absent candidate is a read through a null pointer, whatever the parent
    index; the Digishield entry point guards the same read: with an absent
    candidate its escape test is false and no run of it reads through a
    null pointer. *)
Theorem candidate_header_required_by_lwma (pindexLast : pindex) (params : Params) :
  fPowAllowMinDifficultyBlocks params = true ->
  LwmaGetNextWorkRequired pindexLast None params = Fault NullDereference
  /\ (forall last, DigishieldMinDifficultyEscape last None params = false)
  /\ DigishieldGetNextWorkRequired pindexLast None params <> Fault NullDereference.
Proof.
  intros Hmin. split; [|split].
  - unfold LwmaGetNextWorkRequired. rewrite Hmin. reflexivity.
  - intros last. unfold DigishieldMinDifficultyEscape. apply andb_false_r.
  - apply Digishield_no_null_read.
Qed.

Lemma candidate_header_required_by_lwma_witness :
  let p := index_of (steady_blocks 6 0x1f07ffff 150) in
  LwmaGetNextWorkRequired p None lwma_testnet = Fault NullDereference
  /\ (forall last, DigishieldMinDifficultyEscape last None lwma_testnet = false)
  /\ DigishieldGetNextWorkRequired p None lwma_testnet <> Fault NullDereference.
Proof.
  intros p.
  apply (candidate_header_required_by_lwma p lwma_testnet). reflexivity.
Defined.

(** ** The fPowNoRetargeting rule *)




(** ** The first-block anchor of Digishield *)

(** C4, as the claim states it, fails on both counts.  On a 14-block
    chain with W = 3 the walk gathers its three targets inside the chain,
    yet the result is not the one computed from the median-time-past of
    the oldest entry of the window; and on a chain of exactly three blocks
    the walk gathers all three targets and the engine still answers with
    the compact of powLimit. *)
Lemma digishield_anchor_counterexample :
  let params := digishield_testnet in
  let W := nDigishieldAveragingWindow params in
  let p := index_of (steady_blocks 14 0x1f07ffff 150) in
  let q := index_of (steady_blocks 3 0x1f07ffff 150) in
  (fst (DigishieldAveragingLoop W p 0 0) = (skipn 3 p, W)
   /\ is_null (skipn 3 p) = false
   /\ DigishieldGetNextWorkRequired p None params
      <> DigishieldCalculateNextWorkRequired p
           (SumTargets (DigishieldWindow W p) / W)
           (GetMedianTimePast (DigishieldOldestInWindow W p)) params)
  /\ (fst (DigishieldAveragingLoop W q 0 0) = ([], W)
      /\ DigishieldMinDifficultyEscape (CBlockIndex.mk 2 0x1f07ffff 1500000300) None params = false
      /\ DigishieldResetWindow 2 params = false
      /\ DigishieldGetNextWorkRequired q None params
         = Ok (GetCompact (UintToArith256 (powLimit params)))).
Proof.
  cbv zeta. split; [split; [|split]|split; [|split; [|split]]];
    try (vm_compute; reflexivity).
  vm_compute. discriminate.
Qed.

(** C4 (amended): past the min-difficulty and fork-reset rules, with a
    window size 0 < W < 2^64, Digishield v3 answers with the compact of
    powLimit for insufficient history whenever the parent has at most W
    index entries (the walk then leaves the genesis, also when it has
    gathered all W targets); and with more than W entries the first-block
    anchor is the median-time-past of the entry W steps below the parent,
    the predecessor of the oldest entry of the averaging window, the
    average being taken over the W entries of the window. *)
Theorem digishield_anchor_is_window_predecessor
  (last : CBlockIndex.t) (rest : pindex) (pblock : option CBlockHeader.t)
  (params : Params) :
  let p := last :: rest in
  let W := nDigishieldAveragingWindow params in
  DigishieldMinDifficultyEscape last pblock params = false ->
  DigishieldResetWindow (CBlockIndex.nHeight last) params = false ->
  0 < W < 2 ^ 64 ->
  (Z.of_nat (length p) <= W ->
   DigishieldGetNextWorkRequired p pblock params
   = Ok (GetCompact (UintToArith256 (powLimit params))))
  /\ (W < Z.of_nat (length p) ->
      DigishieldGetNextWorkRequired p pblock params
      = DigishieldCalculateNextWorkRequired p
          (SumTargets (DigishieldWindow W p) / W)
          (GetMedianTimePast (pprev (DigishieldOldestInWindow W p))) params).
Proof.
  intros p W Hesc Hreset HW.
  assert (Hstart : DigishieldGetNextWorkRequired p pblock params
                   = if (length p <=? Z.to_nat W)%nat
                     then Ok (GetCompact (UintToArith256 (powLimit params)))
                     else DigishieldCalculateNextWorkRequired p
                            (SumTargets (DigishieldWindow W p) / W)
                            (GetMedianTimePast (skipn (Z.to_nat W) p)) params).
  { unfold DigishieldGetNextWorkRequired. subst p.
    cbn [is_null negb assert_ bind deref].
    rewrite Hesc, Hreset. fold W. rewrite DigishieldAveragingLoop_start.
    unfold is_null. rewrite skipn_is_null.
    destruct (length (last :: rest) <=? Z.to_nat W)%nat; [reflexivity|].
    unfold U256.div, U256.of_uint64, to_uint64.
    rewrite Z.mod_small by lia.
    destruct (Z.eqb_spec W 0); [lia|]. reflexivity. }
  rewrite Hstart. split; intros Hlen.
  - destruct (Nat.leb_spec (length p) (Z.to_nat W)); [reflexivity|lia].
  - destruct (Nat.leb_spec (length p) (Z.to_nat W)); [lia|].
    unfold pprev, DigishieldOldestInWindow.
    replace (Z.to_nat W) with (S (Z.to_nat (W - 1))) by lia.
    rewrite <- (skipn_skipn 1 (Z.to_nat (W - 1)) p) at 1.
    destruct (skipn (Z.to_nat (W - 1)) p); reflexivity.
Qed.

Lemma digishield_anchor_is_window_predecessor_witness :
  let last := CBlockIndex.mk 13 0x1f07ffff 1500001950 in
  let rest := index_of (steady_blocks 13 0x1f07ffff 150) in
  let q := CBlockIndex.mk 2 0x1f07ffff 1500000300 in
  let qrest := index_of (steady_blocks 2 0x1f07ffff 150) in
  DigishieldGetNextWorkRequired (q :: qrest) None digishield_testnet
  = Ok (GetCompact (UintToArith256 (powLimit digishield_testnet)))
  /\ DigishieldGetNextWorkRequired (last :: rest) None digishield_testnet
     = DigishieldCalculateNextWorkRequired (last :: rest)
         (SumTargets
            (DigishieldWindow (nDigishieldAveragingWindow digishield_testnet)
               (last :: rest))
          / nDigishieldAveragingWindow digishield_testnet)
         (GetMedianTimePast
            (pprev
               (DigishieldOldestInWindow
                  (nDigishieldAveragingWindow digishield_testnet) (last :: rest))))
         digishield_testnet.
Proof.
  intros last rest q qrest. split.
  - destruct (digishield_anchor_is_window_predecessor q qrest None digishield_testnet)
      as [H _]; [reflexivity|reflexivity|split; reflexivity|].
    apply H. vm_compute. congruence.
  - destruct (digishield_anchor_is_window_predecessor last rest None digishield_testnet)
      as [_ H]; [reflexivity|reflexivity|split; reflexivity|].
    apply H. vm_compute. congruence.
Defined.

(** ** Invariant I-T *)

Lemma UintToArith256_range (x : Z) : 0 <= UintToArith256 x < U256.modulus.
Proof. apply Z.mod_pos_bound. reflexivity. Qed.

Lemma U256_mul_range (a b : Z) : 0 <= U256.mul a b < U256.modulus.
Proof. apply Z.mod_pos_bound. reflexivity. Qed.

Lemma GetCompact_saturated (x limit : Z) :
  0 <= x < U256.modulus -> 0 <= limit < U256.modulus ->
  target_of (GetCompact (if x >? limit then limit else x)) <= limit.
Proof.
  intros Hx Hl. destruct (Z.gtb_spec x limit).
  - apply GetCompact_never_rounds_up. assumption.
  - pose proof (GetCompact_never_rounds_up x Hx). lia.
Qed.

Lemma GetCompact_powLimit (params : Params) :
  target_of (GetCompact (UintToArith256 (powLimit params)))
  <= UintToArith256 (powLimit params).
Proof. apply GetCompact_never_rounds_up, UintToArith256_range. Qed.

Section WithinPowLimit.

Variable params : Params.
Variable last : CBlockIndex.t.
Variable rest : pindex.
Hypothesis parent_within :
  target_of (CBlockIndex.nBits last) <= UintToArith256 (powLimit params).

Lemma DigishieldCalculate_within (bnAvg nFirstBlockTime nBits : Z) :
  DigishieldCalculateNextWorkRequired (last :: rest) bnAvg nFirstBlockTime params
  = Ok nBits ->
  target_of nBits <= UintToArith256 (powLimit params).
Proof.
  unfold DigishieldCalculateNextWorkRequired. cbn [deref bind].
  destruct (fPowNoRetargeting params).
  - intros [= <-]. exact parent_within.
  - unfold U256.div. destruct (_ =? 0); cbn [bind]; [discriminate|].
    intros [= <-].
    apply GetCompact_saturated; [apply U256_mul_range|apply UintToArith256_range].
Qed.

Lemma Digishield_within (pblock : option CBlockHeader.t) (nBits : Z) :
  DigishieldGetNextWorkRequired (last :: rest) pblock params = Ok nBits ->
  target_of nBits <= UintToArith256 (powLimit params).
Proof.
  unfold DigishieldGetNextWorkRequired. cbn [is_null negb assert_ bind deref].
  destruct (DigishieldMinDifficultyEscape last pblock params);
    [intros [= <-]; apply GetCompact_powLimit|].
  destruct (DigishieldResetWindow (CBlockIndex.nHeight last) params);
    [intros [= <-]; apply GetCompact_powLimit|].
  destruct (DigishieldAveragingLoop _ _ _ _) as [[pindexFirst i] bnTot].
  destruct (is_null pindexFirst); [intros [= <-]; apply GetCompact_powLimit|].
  unfold U256.div. destruct (_ =? 0); cbn [bind]; [discriminate|].
  apply DigishieldCalculate_within.
Qed.

Lemma LwmaCalculate_within (nBits : Z) :
  LwmaCalculateNextWorkRequired (last :: rest) params = Ok nBits ->
  target_of nBits <= UintToArith256 (powLimit params).
Proof.
  unfold LwmaCalculateNextWorkRequired. cbn [deref bind].
  destruct (fPowNoRetargeting params).
  - intros [= <-]. exact parent_within.
  - destruct (assert_ _); cbn [bind]; [|discriminate].
    destruct (LwmaLoop _ _ _ _) as [st|]; cbn [bind]; [|discriminate].
    destruct (int_div _ _) as [floor|]; cbn [bind]; [|discriminate].
    intros [= <-].
    apply GetCompact_saturated; [apply U256_mul_range|apply UintToArith256_range].
Qed.

Lemma Lwma_within (pblock : option CBlockHeader.t) (nBits : Z) :
  LwmaGetNextWorkRequired (last :: rest) pblock params = Ok nBits ->
  target_of nBits <= UintToArith256 (powLimit params).
Proof.
  unfold LwmaGetNextWorkRequired.
  match goal with |- bind ?m _ = _ -> _ => destruct m as [[|]|] end; cbn [bind].
  - intros [= <-]. apply GetCompact_powLimit.
  - apply LwmaCalculate_within.
  - discriminate.
Qed.

End WithinPowLimit.

(** C2 (invariant I-T): whenever nextWorkRequired returns, for a parent
    whose own compact decodes to a target at most powLimit (the parent is
    the newest block of either averaging window), any candidate header and
    any parameters, the compact it returns decodes to a target at most
    powLimit. *)
Theorem nextWorkRequired_within_powLimit
  (pindexLast : pindex) (pblock : option CBlockHeader.t) (params : Params)
  (nBits : Z) :
  (forall last, deref pindexLast = Ok last ->
     target_of (CBlockIndex.nBits last) <= UintToArith256 (powLimit params)) ->
  GetNextWorkRequired pindexLast pblock params = Ok nBits ->
  target_of nBits <= UintToArith256 (powLimit params).
Proof.
  intros Hparent. unfold GetNextWorkRequired.
  destruct pindexLast as [|last rest]; cbn [is_null negb assert_ bind deref];
    [discriminate|].
  specialize (Hparent last eq_refl).
  destruct (_ <? _).
  - apply Digishield_within. exact Hparent.
  - apply Lwma_within. exact Hparent.
Qed.

Lemma nextWorkRequired_within_powLimit_witness :
  let p := index_of (steady_blocks 14 0x1f07ffff 150) in
  target_of 0x1f07fffe <= UintToArith256 (powLimit digishield_testnet)
  /\ target_of 0x1f07fffe <= UintToArith256 (powLimit lwma_testnet).
Proof.
  intros p. split.
  - apply (nextWorkRequired_within_powLimit p
             (Some (header_at 1500002100)) digishield_testnet 0x1f07fffe).
    + intros last H. vm_compute in H. injection H as <-. vm_compute. congruence.
    + vm_compute. reflexivity.
  - apply (nextWorkRequired_within_powLimit p
             (Some (header_at 1500002100)) lwma_testnet 0x1f07fffe).
    + intros last H. vm_compute in H. injection H as <-. vm_compute. congruence.
    + vm_compute. reflexivity.
Defined.

(** ** Ancestor lookups on a well-formed index *)

Lemma in_for_range (lo hi i : Z) : In i (for_range lo hi) <-> lo <= i < hi.
Proof.
  unfold for_range. rewrite in_map_iff. split.
  - intros [n [<- Hn]]. apply in_seq in Hn. lia.
  - intros Hi. exists (Z.to_nat (i - lo)). split; [lia|]. apply in_seq. lia.
Qed.

Lemma length_for_range (lo hi : Z) : length (for_range lo hi) = Z.to_nat (hi - lo).
Proof. unfold for_range. rewrite length_map, length_seq. reflexivity. Qed.

Lemma chain_ok_skipn (n : nat) :
  forall (last : CBlockIndex.t) (rest : pindex),
    chain_ok (last :: rest) -> (n <= length rest)%nat ->
    exists b r,
      skipn n (last :: rest) = b :: r
      /\ CBlockIndex.nHeight b = CBlockIndex.nHeight last - Z.of_nat n
      /\ chain_ok (b :: r)
      /\ nth_error (last :: rest) n = Some b.
Proof.
  induction n as [|n IH]; intros last rest Hok Hn.
  - exists last, rest. split; [reflexivity|]. split; [cbn; lia|].
    split; [assumption|reflexivity].
  - destruct rest as [|last' rest']; [cbn in Hn; lia|].
    destruct Hok as [Hh Hok'].
    destruct (IH last' rest' Hok') as (b & r & Hs & Hb & Hokb & Hnth);
      [cbn in Hn; lia|].
    exists b, r. split; [exact Hs|]. split; [|split; assumption].
    destruct Hok' as [Hh' _]. cbn [length] in Hh. lia.
Qed.

Section WellFormedIndex.

Variable last : CBlockIndex.t.
Variable rest : pindex.
Hypothesis index_ok : chain_ok (last :: rest).

Lemma tip_height : CBlockIndex.nHeight last = Z.of_nat (length rest).
Proof. exact (proj1 index_ok). Qed.

Lemma GetAncestor_in_chain (i : Z) :
  0 <= i <= CBlockIndex.nHeight last ->
  exists b r,
    GetAncestor (last :: rest) i = Ok (b :: r)
    /\ CBlockIndex.nHeight b = i
    /\ chain_ok (b :: r)
    /\ block_at (last :: rest) i = Some b.
Proof.
  intros Hi. pose proof tip_height as Ht.
  destruct (chain_ok_skipn (Z.to_nat (CBlockIndex.nHeight last - i)) last rest index_ok)
    as (b & r & Hs & Hb & Hokb & Hnth); [lia|].
  exists b, r. unfold GetAncestor, block_at. cbn [deref bind].
  destruct (Z.gtb_spec i (CBlockIndex.nHeight last)); [lia|].
  destruct (Z.ltb_spec i 0); [lia|]. cbn [orb].
  rewrite Hs. split; [reflexivity|].
  split; [lia|]. split; [assumption|]. exact Hnth.
Qed.

(** Both lookups of one loop iteration, for a height of the chain above
    the genesis. *)
Lemma window_lookups (i : Z) :
  1 <= i <= CBlockIndex.nHeight last ->
  exists b r bp rp,
    GetAncestor (last :: rest) i = Ok (b :: r)
    /\ GetAncestor (b :: r) (i - 1) = Ok (bp :: rp)
    /\ block_at (last :: rest) i = Some b
    /\ block_at (last :: rest) (i - 1) = Some bp.
Proof.
  intros Hi. pose proof tip_height as Ht.
  destruct (chain_ok_skipn (Z.to_nat (CBlockIndex.nHeight last - i)) last rest index_ok)
    as (b & r & Hs & Hb & Hokb & Hnth); [lia|].
  destruct (chain_ok_skipn (S (Z.to_nat (CBlockIndex.nHeight last - i))) last rest index_ok)
    as (bp & rp & Hs' & Hbp & Hokp & Hnth'); [lia|].
  assert (Hr : r = bp :: rp).
  { change (S (Z.to_nat (CBlockIndex.nHeight last - i))) with (1 + Z.to_nat (CBlockIndex.nHeight last - i))%nat in Hs'.
    rewrite <- skipn_skipn, Hs in Hs'. exact Hs'. }
  exists b, r, bp, rp.
  assert (Hgb : GetAncestor (last :: rest) i = Ok (b :: r)).
  { unfold GetAncestor. cbn [deref bind].
    destruct (Z.gtb_spec i (CBlockIndex.nHeight last)); [lia|].
    destruct (Z.ltb_spec i 0); [lia|]. cbn [orb]. rewrite Hs. reflexivity. }
  split; [|split; [|split]].
  - exact Hgb.
  - unfold GetAncestor. cbn [deref bind].
    destruct (Z.gtb_spec (i - 1) (CBlockIndex.nHeight b)); [lia|].
    destruct (Z.ltb_spec (i - 1) 0); [lia|]. cbn [orb].
    replace (Z.to_nat (CBlockIndex.nHeight b - (i - 1))) with 1%nat by lia.
    rewrite Hr. reflexivity.
  - unfold block_at. exact Hnth.
  - unfold block_at.
    replace (Z.to_nat (CBlockIndex.nHeight last - (i - 1))) with (S (Z.to_nat (CBlockIndex.nHeight last - i))) by lia.
    exact Hnth'.
Qed.

Variable params : Params.

(** One loop iteration on a height of the chain: the lookups succeed,
    and the step is the narrowed weighted sum and the divided target. *)
Lemma LwmaLoopBody_in_chain (st : lwma_state) (i : Z) :
  1 <= i <= CBlockIndex.nHeight last ->
  exists b,
    block_at (last :: rest) i = Some b
    /\ LwmaLoopBody (last :: rest) params st i
       = (q <- U256.div (target_of (CBlockIndex.nBits b))
                (U256.of_uint64
                   (nZawyLwmaAdjustedWeight params
                    * nZawyLwmaAveragingWindow params
                    * nZawyLwmaAveragingWindow params)) ;;
          Ok (mkLwma
                (to_int32 (lwma_t st + solvetime_at (last :: rest) params i * (lwma_j st + 1)))
                (lwma_j st + 1)
                (U256.add (lwma_sum_target st) q))).
Proof.
  intros Hi.
  destruct (window_lookups i Hi) as (b & r & bp & rp & Hb & Hbp & Hat & Hat').
  exists b. split; [exact Hat|].
  unfold LwmaLoopBody, solvetime_at, time_at.
  rewrite Hb. cbn [bind]. rewrite Hbp, Hat, Hat'. reflexivity.
Qed.

Lemma LwmaLoop_no_failed_lookup (heights : list Z) :
  (forall i, In i heights -> 1 <= i <= CBlockIndex.nHeight last) ->
  forall st,
    (exists st', LwmaLoop (last :: rest) params heights st = Ok st')
    \/ LwmaLoop (last :: rest) params heights st = Fault UintError.
Proof.
  induction heights as [|i heights IH]; intros Hin st; cbn [LwmaLoop].
  - left. exists st. reflexivity.
  - destruct (LwmaLoopBody_in_chain st i) as (b & _ & ->);
      [apply Hin; left; reflexivity|].
    unfold U256.div. destruct (_ =? 0); cbn [bind].
    + right. reflexivity.
    + apply IH. intros j Hj. apply Hin. right. exact Hj.
Qed.

End WellFormedIndex.

(** ** The LWMA accumulator *)

Lemma to_int32_small (x : Z) : - 2 ^ 31 <= x < 2 ^ 31 -> to_int32 x = x.
Proof. intros Hx. unfold to_int32. rewrite Z.mod_small; lia. Qed.

Lemma triangle_step (B s t j : Z) :
  0 <= j -> - B <= s <= B ->
  - (B * (j * (j + 1))) <= 2 * t <= B * (j * (j + 1)) ->
  - (B * ((j + 1) * (j + 1 + 1))) <= 2 * (t + s * (j + 1))
    <= B * ((j + 1) * (j + 1 + 1)).
Proof. intros Hj Hs Ht. nia. Qed.

Lemma triangle_mono (B j n : Z) :
  0 <= B -> 0 <= j -> 1 <= n ->
  B * ((j + 1) * (j + 1 + 1)) <= B * ((j + n) * (j + n + 1)).
Proof. intros HB Hj Hn. apply Z.mul_le_mono_nonneg_l; [assumption|]. nia. Qed.

Section ExactAccumulation.

Variable last : CBlockIndex.t.
Variable rest : pindex.
Hypothesis index_ok : chain_ok (last :: rest).
Variable params : Params.
Variable B : Z.
Hypothesis divisor_nonzero :
to_uint64 (nZawyLwmaAdjustedWeight params * nZawyLwmaAveragingWindow params
           * nZawyLwmaAveragingWindow params) <> 0.

Lemma LwmaLoop_exact (heights : list Z) :
(forall i, In i heights ->
   1 <= i <= CBlockIndex.nHeight last
   /\ - B <= solvetime_at (last :: rest) params i <= B) ->
forall st,
  let j := lwma_j st in
  let n := Z.of_nat (length heights) in
  0 <= j ->
  - (B * (j * (j + 1))) <= 2 * lwma_t st <= B * (j * (j + 1)) ->
  B * ((j + n) * (j + n + 1)) <= 2 * (2 ^ 31 - 1) ->
  exists st',
    LwmaLoop (last :: rest) params heights st = Ok st'
    /\ lwma_j st' = j + n
    /\ lwma_t st'
       = lwma_t st + WeightedSum (map (solvetime_at (last :: rest) params) heights) j.
Proof.
induction heights as [|i heights IH]; intros Hin st j n Hj Ht Hfit; subst j n.
- exists st. cbn. repeat split; lia.
- destruct (Hin i (or_introl eq_refl)) as [Hi Hs].
  assert (HB : 0 <= B) by lia.
  cbn [LwmaLoop].
  destruct (LwmaLoopBody_in_chain last rest index_ok params st i Hi) as (b & _ & ->).
  unfold U256.div, U256.of_uint64.
  destruct (Z.eqb_spec (to_uint64 (nZawyLwmaAdjustedWeight params
                                   * nZawyLwmaAveragingWindow params
                                   * nZawyLwmaAveragingWindow params)) 0);
    [contradiction|].
  cbn [bind].
  set (s := solvetime_at (last :: rest) params i) in *.
  set (j := lwma_j st) in *. set (t := lwma_t st) in *.
  pose proof (triangle_step B s t j Hj Hs Ht) as Hstep.
  assert (Hlen : Z.of_nat (length (i :: heights)) = 1 + Z.of_nat (length heights))
    by (cbn [length]; lia).
  rewrite Hlen in Hfit.
  pose proof (triangle_mono B j (1 + Z.of_nat (length heights)) HB Hj ltac:(lia))
    as Hmono.
  assert (Hsmall : to_int32 (t + s * (j + 1)) = t + s * (j + 1)).
  { apply to_int32_small. lia. }
  rewrite Hsmall.
  match goal with
  | |- context [LwmaLoop _ _ heights ?st1] =>
      destruct (IH (fun i' H' => Hin i' (or_intror H')) st1) as (st' & Hrun & Hj' & Ht')
  end.
  + cbn [lwma_j]. lia.
  + cbn [lwma_j lwma_t]. exact Hstep.
  + cbn [lwma_j].
    replace (j + 1 + Z.of_nat (length heights))
      with (j + (1 + Z.of_nat (length heights))) by lia.
    exact Hfit.
  + exists st'. cbn [lwma_j lwma_t] in Hj', Ht'.
    split; [exact Hrun|]. split; [lia|].
    rewrite Ht'. cbn [map WeightedSum]. fold s. lia.
Qed.

End ExactAccumulation.




(** ** The LWMA precondition h > N *)

(** C7, as the claim states it, fails in its last part: with
    fPowNoRetargeting set, a call with h <= N does not abort, it returns
    the parent's nBits (here h = 3 = N). *)
Lemma lwma_short_chain_counterexample :
  let p := index_of (steady_blocks 3 0x1f07ffff 150) in
  deref p = Ok (CBlockIndex.mk 2 0x1f07ffff 1500000300)
  /\ 2 + 1 <= nZawyLwmaAveragingWindow lwma_regtest
  /\ LwmaCalculateNextWorkRequired p lwma_regtest = Ok 0x1f07ffff.
Proof.
  cbv zeta. split; [reflexivity|]. split; [vm_compute; congruence|].
  vm_compute. reflexivity.
Qed.

(** C7 (amended): on a well-formed index with N >= 1 and h = parent
    height + 1.  If h > N, every lookup of the loop, GetAncestor(i) on the
    parent and GetAncestor(i - 1) on its result for i from h - N to h - 1,
    is for a height between 0 and the parent's and yields an entry, and
    the call neither fails its assertion nor reads through a null
    pointer.  If h <= N the call aborts on the assertion, except that with
    fPowNoRetargeting set the parent's nBits is returned before the
    assertion is reached. *)
Theorem lwma_window_precondition
  (last : CBlockIndex.t) (rest : pindex) (params : Params) :
  let p := last :: rest in
  let height := CBlockIndex.nHeight last + 1 in
  let N := nZawyLwmaAveragingWindow params in
  chain_ok p ->
  1 <= N ->
  (N < height ->
   (forall i, height - N <= i < height ->
      0 <= i - 1 /\ i <= CBlockIndex.nHeight last
      /\ exists b r bp rp,
           GetAncestor p i = Ok (b :: r)
           /\ GetAncestor (b :: r) (i - 1) = Ok (bp :: rp))
   /\ LwmaCalculateNextWorkRequired p params <> Fault AssertionFailed
   /\ LwmaCalculateNextWorkRequired p params <> Fault NullDereference)
  /\ (height <= N ->
      LwmaCalculateNextWorkRequired p params
      = if fPowNoRetargeting params then Ok (CBlockIndex.nBits last)
        else Fault AssertionFailed).
Proof.
  intros p height N Hok HN. split.
  - intros Hh. split.
    + intros i Hi. split; [lia|]. split; [subst height; lia|].
      destruct (window_lookups last rest Hok i) as (b & r & bp & rp & Hb & Hbp & _);
        [subst height; lia|].
      exists b, r, bp, rp. split; assumption.
    + assert (Hrun :
        (exists n, LwmaCalculateNextWorkRequired p params = Ok n)
        \/ LwmaCalculateNextWorkRequired p params = Fault UintError
        \/ LwmaCalculateNextWorkRequired p params = Fault IntDivByZero).
      { unfold LwmaCalculateNextWorkRequired. subst p. cbn [deref bind].
        destruct (fPowNoRetargeting params); [left; eexists; reflexivity|].
        fold height. fold N.
        destruct (Z.gtb_spec height N); [|lia]. cbn [assert_ bind].
        destruct (LwmaLoop_no_failed_lookup last rest Hok params
                    (for_range (height - N) height)) with (st := mkLwma 0 0 0)
          as [[st ->]| ->].
        - intros i Hi. apply in_for_range in Hi. subst height. lia.
        - cbn [bind]. unfold int_div. destruct (_ =? 0); cbn [bind].
          + right. right. reflexivity.
          + left. eexists. reflexivity.
        - right. left. reflexivity. }
      destruct Hrun as [[n ->]|[-> | ->]]; split; discriminate.
  - intros Hh. unfold LwmaCalculateNextWorkRequired. subst p. cbn [deref bind].
    destruct (fPowNoRetargeting params); [reflexivity|].
    fold height. fold N.
    destruct (Z.gtb_spec height N); [lia|]. reflexivity.
Qed.

Lemma lwma_window_precondition_witness :
  let last := CBlockIndex.mk 5 0x1f07ffff 1500000750 in
  let rest := index_of (steady_blocks 5 0x1f07ffff 150) in
  let q := CBlockIndex.mk 2 0x1f07ffff 1500000300 in
  let qrest := index_of (steady_blocks 2 0x1f07ffff 150) in
  (LwmaCalculateNextWorkRequired (last :: rest) lwma_testnet <> Fault AssertionFailed
   /\ LwmaCalculateNextWorkRequired (last :: rest) lwma_testnet <> Fault NullDereference)
  /\ LwmaCalculateNextWorkRequired (q :: qrest) lwma_testnet = Fault AssertionFailed.
Proof.
  intros last rest q qrest. split.
  - destruct (lwma_window_precondition last rest lwma_testnet) as [H _].
    + vm_compute. repeat split; reflexivity.
    + vm_compute. congruence.
    + apply H. vm_compute. reflexivity.
  - destruct (lwma_window_precondition q qrest lwma_testnet) as [_ H].
    + vm_compute. repeat split; reflexivity.
    + vm_compute. congruence.
    + apply H. vm_compute. congruence.
Defined.

(** * Further properties *)

(** ** Canonical compacts *)

Lemma target_of_range (nCompact : Z) : 0 <= target_of nCompact < U256.modulus.
Proof.
  unfold target_of, SetCompact. cbn [target].
  assert (Hw : 0 <= Z.land nCompact 0x007fffff < 2 ^ 23).
  { change 0x007fffff with (Z.ones 23). rewrite Z.land_ones by lia.
    apply Z.mod_pos_bound. reflexivity. }
  destruct (Z.leb_spec (Z.shiftr nCompact 24) 3) as [Hle|Hgt].
  - rewrite Z.shiftr_div_pow2 by lia.
    assert (Hp : 0 < 2 ^ (8 * (3 - Z.shiftr nCompact 24)))
      by (apply Z.pow_pos_nonneg; lia).
    split; [apply Z.div_pos; lia|].
    apply Z.le_lt_trans with (Z.land nCompact 0x007fffff).
    + apply Z.div_le_upper_bound; [assumption|]. nia.
    + unfold U256.modulus. lia.
  - apply Z.mod_pos_bound. reflexivity.
Qed.

Lemma compact_size_lower (a : Z) :
  0 < a -> 2 ^ (8 * ((U256.bits a + 7) / 8 - 1)) <= a.
Proof.
  intros Ha. unfold U256.bits.
  destruct (Z.eqb_spec a 0) as [->|_]; [lia|].
  pose proof (Z.log2_spec a Ha) as [Hlo _].
  pose proof (Z.log2_nonneg a) as Hl0.
  apply Z.le_trans with (2 ^ Z.log2 a); [|assumption].
  apply Z.pow_le_mono_r; [lia|].
  pose proof (Z.div_mod (Z.log2 a + 1 + 7) 8 ltac:(lia)).
  pose proof (Z.mod_pos_bound (Z.log2 a + 1 + 7) 8 ltac:(lia)). lia.
Qed.

Lemma floor_multiple_eq (a s : Z) :
  0 <= a < U256.modulus -> 0 <= s ->
  U256.shiftl (Z.shiftr a s) s = a / 2 ^ s * 2 ^ s.
Proof.
  intros Ha Hs. pose proof (floor_multiple_le a s Ha Hs) as Hb.
  unfold U256.shiftl, U256.wrap in *.
  rewrite Z.shiftl_mul_pow2, Z.shiftr_div_pow2 in * by assumption.
  assert (Hp : 0 < 2 ^ s) by (apply Z.pow_pos_nonneg; lia).
  pose proof (Z.mul_div_le a (2 ^ s) Hp).
  assert (0 <= a / 2 ^ s) by (apply Z.div_pos; lia).
  apply Z.mod_small. nia.
Qed.

(** The compact of a 256-bit value: a mantissa below the sign bit, an
    exponent of at most 33 (with a mantissa of two bytes when it is 33),
    decoding to the value with its low [s] bits cleared. *)
Lemma GetCompact_shape (a : Z) :
  0 <= a < U256.modulus ->
  exists c e s,
    GetCompact a = Z.lor c (to_uint32 (Z.shiftl e 24))
    /\ 0 <= c < 2 ^ 23
    /\ 0 <= e <= 33
    /\ (e = 33 -> c < 2 ^ 16)
    /\ 0 <= s
    /\ target_of (GetCompact a) = a / 2 ^ s * 2 ^ s
    /\ (0 < a -> 2 ^ s <= a).
Proof.
  intros Ha. pose proof (compact_size_bounds a Ha) as [Hn Hlt].
  pose proof (compact_size_lower a) as Hlow.
  unfold GetCompact. set (nSize := (U256.bits a + 7) / 8) in *.
  clearbody nSize.
  set (c0 := if nSize <=? 3
             then to_uint32 (Z.shiftl (U256.GetLow64 a) (8 * (3 - nSize)))
             else to_uint32 (U256.GetLow64 (U256.shiftr a (8 * (nSize - 3))))).
  assert (Hc0 : 0 <= c0 < 2 ^ 24 /\
                if nSize <=? 3 then c0 = a * 2 ^ (8 * (3 - nSize))
                else c0 = a / 2 ^ (8 * (nSize - 3))).
  { subst c0. unfold to_uint32, U256.GetLow64, to_uint64, U256.shiftr.
    destruct (Z.leb_spec nSize 3) as [Hle|Hgt].
    - assert (Hs : a * 2 ^ (8 * (3 - nSize)) < 2 ^ 24).
      { replace 24 with (8 * nSize + 8 * (3 - nSize)) by lia.
        rewrite Z.pow_add_r by lia.
        apply Z.mul_lt_mono_pos_r; [apply Z.pow_pos_nonneg; lia|assumption]. }
      assert (Ha24 : a < 2 ^ 24).
      { apply Z.lt_le_trans with (2 ^ (8 * nSize)); [assumption|].
        apply Z.pow_le_mono_r; lia. }
      assert (0 <= a * 2 ^ (8 * (3 - nSize)))
        by (apply Z.mul_nonneg_nonneg; [lia|apply Z.pow_nonneg; lia]).
      rewrite (Z.mod_small a) by lia.
      rewrite Z.shiftl_mul_pow2 by lia.
      generalize dependent (a * 2 ^ (8 * (3 - nSize))). intros q Hq Hq0.
      rewrite Z.mod_small by lia. lia.
    - rewrite Z.shiftr_div_pow2 by lia.
      assert (Hp : 0 < 2 ^ (8 * (nSize - 3))) by (apply Z.pow_pos_nonneg; lia).
      assert (Hq : a / 2 ^ (8 * (nSize - 3)) < 2 ^ 24).
      { apply Z.div_lt_upper_bound; [assumption|].
        rewrite <- Z.pow_add_r by lia.
        replace (8 * (nSize - 3) + 24) with (8 * nSize) by lia. assumption. }
      assert (0 <= a / 2 ^ (8 * (nSize - 3))) by (apply Z.div_pos; lia).
      generalize dependent (a / 2 ^ (8 * (nSize - 3))). intros q Hq Hq0.
      rewrite (Z.mod_small q (2 ^ 64)) by lia.
      rewrite Z.mod_small by lia. lia. }
  destruct Hc0 as [Hr Hv]. clearbody c0.
  assert (Hexact : forall k, 0 <= k -> a * 2 ^ k / 2 ^ k = a / 2 ^ 0 * 2 ^ 0).
  { intros k Hk. rewrite Z.div_mul by (apply Z.pow_nonzero; lia).
    rewrite Z.pow_0_r, Z.div_1_r. lia. }
  change 0x00800000 with (2 ^ 23).
  rewrite land_pow2_eqb_0, negb_involutive, (testbit_top c0 23) by (simpl; lia).
  destruct (Z.leb_spec (2 ^ 23) c0) as [Hbig|Hsmall].
  - (* the sign bit would be set: one more byte is dropped *)
    assert (Hc8 : 0 <= Z.shiftr c0 8 < 2 ^ 16).
    { rewrite Z.shiftr_div_pow2 by lia. split; [apply Z.div_pos; lia|].
      apply Z.div_lt_upper_bound; lia. }
    destruct (Z.leb_spec nSize 3) as [Hle|Hgt].
    + destruct (Z.leb_spec (nSize + 1) 3) as [Hle'|Hgt'].
      * exists (Z.shiftr c0 8), (nSize + 1), 0.
        rewrite SetCompact_assembled by lia.
        destruct (Z.leb_spec (nSize + 1) 3); [|lia].
        repeat (split; [lia|]). split; [|rewrite Z.pow_0_r; lia].
        unfold U256.shiftr. rewrite Z.shiftr_shiftr by lia.
        replace (8 + 8 * (3 - (nSize + 1))) with (8 * (3 - nSize)) by lia.
        rewrite Hv, Z.shiftr_div_pow2 by lia. apply Hexact. lia.
      * assert (nSize = 3) by lia. subst nSize.
        change (8 * (3 - 3)) with 0 in Hv. rewrite Z.pow_0_r, Z.mul_1_r in Hv.
        subst c0.
        exists (Z.shiftr a 8), (3 + 1), 8.
        rewrite SetCompact_assembled by lia.
        change (3 + 1 <=? 3) with false. change (8 * (3 + 1 - 3)) with 8.
        repeat (split; [lia|]). split; [apply floor_multiple_eq; lia|].
        intros _. change (2 ^ 8) with 256. lia.
    + exists (Z.shiftr c0 8), (nSize + 1), (8 * (nSize + 1 - 3)).
      rewrite SetCompact_assembled by lia.
      destruct (Z.leb_spec (nSize + 1) 3); [lia|].
      repeat (split; [lia|]). split.
      * rewrite Hv, <- Z.shiftr_div_pow2, Z.shiftr_shiftr by lia.
        replace (8 * (nSize - 3) + 8) with (8 * (nSize + 1 - 3)) by lia.
        apply floor_multiple_eq; lia.
      * intros Hpos. specialize (Hlow Hpos).
        apply Z.le_trans with (2 ^ (8 * (nSize - 1))); [|assumption].
        apply Z.pow_le_mono_r; lia.
  - destruct (Z.leb_spec nSize 3) as [Hle|Hgt].
    + exists c0, nSize, 0.
      rewrite SetCompact_assembled by lia.
      destruct (Z.leb_spec nSize 3); [|lia].
      repeat (split; [lia|]). split; [|rewrite Z.pow_0_r; lia].
      unfold U256.shiftr. rewrite Hv, Z.shiftr_div_pow2 by lia.
      apply Hexact. lia.
    + exists c0, nSize, (8 * (nSize - 3)).
      rewrite SetCompact_assembled by lia.
      destruct (Z.leb_spec nSize 3); [lia|].
      repeat (split; [lia|]). split.
      * rewrite Hv, <- floor_multiple_eq, Z.shiftr_div_pow2 by lia. reflexivity.
      * intros Hpos. specialize (Hlow Hpos).
        apply Z.le_trans with (2 ^ (8 * (nSize - 1))); [|assumption].
        apply Z.pow_le_mono_r; lia.
Qed.

Lemma GetCompact_positive (a : Z) :
  0 < a < U256.modulus -> 0 < target_of (GetCompact a).
Proof.
  intros Ha.
  destruct (GetCompact_shape a) as (c & e & s & _ & _ & _ & _ & Hs & -> & Hlow);
    [lia|].
  assert (Hp : 0 < 2 ^ s) by (apply Z.pow_pos_nonneg; lia).
  assert (1 <= a / 2 ^ s).
  { apply Z.div_le_lower_bound; [assumption|]. specialize (Hlow ltac:(lia)). lia. }
  nia.
Qed.

Lemma assembled_flags (c e : Z) :
  0 <= c < 2 ^ 23 -> 0 <= e <= 33 -> (e = 33 -> c < 2 ^ 16) ->
  fNegative (SetCompact (Z.lor c (to_uint32 (Z.shiftl e 24)))) = false
  /\ fOverflow (SetCompact (Z.lor c (to_uint32 (Z.shiftl e 24)))) = false.
Proof.
  intros Hc He He33. unfold SetCompact, to_uint32. cbn [fNegative fOverflow].
  assert (Hsh : Z.shiftl e 24 mod 2 ^ 32 = Z.shiftl e 24).
  { rewrite Z.shiftl_mul_pow2 by lia. apply Z.mod_small.
    change (2 ^ 32) with (256 * 2 ^ 24). nia. }
  rewrite Hsh, lor_high_add by lia.
  assert (Hsize : Z.shiftr (c + e * 2 ^ 24) 24 = e).
  { rewrite Z.shiftr_div_pow2, Z.div_add, Z.div_small by lia. lia. }
  assert (Hword : Z.land (c + e * 2 ^ 24) 0x007fffff = c).
  { change 0x007fffff with (Z.ones 23). rewrite Z.land_ones by lia.
    change (2 ^ 24) with (2 * 2 ^ 23).
    replace (c + e * (2 * 2 ^ 23)) with (c + (e * 2) * 2 ^ 23) by lia.
    rewrite Z.mod_add, Z.mod_small by lia. reflexivity. }
  assert (Hsign : (Z.land (c + e * 2 ^ 24) 0x00800000 =? 0) = true).
  { change 0x00800000 with (2 ^ 23). rewrite land_pow2_eqb_0 by lia.
    apply negb_true_iff. apply Z.testbit_false; [lia|].
    change (2 ^ 24) with (2 * 2 ^ 23).
    replace (c + e * (2 * 2 ^ 23)) with (c + (e * 2) * 2 ^ 23) by lia.
    rewrite Z.div_add, Z.div_small, Z.add_0_l by lia. apply Z.mod_mul. lia. }
  rewrite Hsize, Hword, Hsign. cbn [negb]. rewrite andb_false_r. split; [reflexivity|].
  destruct (Z.leb_spec e 3) as [Hle|Hgt].
  - destruct (Z.gtb_spec e 34); [lia|]. destruct (Z.gtb_spec e 33); [lia|].
    destruct (Z.gtb_spec e 32); [lia|].
    rewrite ?andb_false_r; reflexivity.
  - destruct (Z.gtb_spec e 34); [lia|]. destruct (Z.gtb_spec e 33); [lia|].
    destruct (Z.gtb_spec e 32) as [H32|H32].
    + destruct (Z.gtb_spec c 0xffff); [specialize (He33 ltac:(lia)); lia|].
      rewrite ?andb_false_r; reflexivity.
    + rewrite ?andb_false_r; reflexivity.
Qed.

Lemma GetCompact_flags (a : Z) :
  0 <= a < U256.modulus ->
  fNegative (SetCompact (GetCompact a)) = false
  /\ fOverflow (SetCompact (GetCompact a)) = false.
Proof.
  intros Ha.
  destruct (GetCompact_shape a Ha) as (c & e & s & -> & Hc & He & He33 & _).
  apply assembled_flags; assumption.
Qed.

(** ** Proof of work against the retarget's compacts *)

(** X1: acceptance by CheckProofOfWork is kept when the hash gets smaller
    (as a 256-bit number) and when powLimit gets larger. *)
Theorem CheckProofOfWork_monotone
  (hash hash' nBits : Z) (params params' : Params) :
  CheckProofOfWork hash nBits params = true ->
  UintToArith256 hash' <= UintToArith256 hash ->
  UintToArith256 (powLimit params) <= UintToArith256 (powLimit params') ->
  CheckProofOfWork hash' nBits params' = true.
Proof.
  unfold CheckProofOfWork. intros Hacc Hh Hl.
  destruct (fNegative (SetCompact nBits)); [discriminate|].
  destruct (Z.eqb_spec (target (SetCompact nBits)) 0); [discriminate|].
  destruct (fOverflow (SetCompact nBits)); [discriminate|].
  cbn [orb] in *.
  destruct (Z.gtb_spec (target (SetCompact nBits)) (UintToArith256 (powLimit params)));
    [discriminate|].
  destruct (Z.gtb_spec (UintToArith256 hash) (target (SetCompact nBits)));
    [discriminate|].
  destruct (Z.gtb_spec (target (SetCompact nBits)) (UintToArith256 (powLimit params')));
    [lia|].
  destruct (Z.gtb_spec (UintToArith256 hash') (target (SetCompact nBits)));
    [lia|reflexivity].
Qed.

Lemma CheckProofOfWork_monotone_witness :
  CheckProofOfWork 0x00000000ffff0000000000000000000000000000000000000000000000000000
    0x1f07ffff lwma_testnet = true.
Proof.
  apply (CheckProofOfWork_monotone (target_of 0x1f07ffff) _ 0x1f07ffff
           digishield_testnet lwma_testnet).
  - vm_compute. reflexivity.
  - vm_compute. congruence.
  - vm_compute. congruence.
Defined.

(** Where a returned compact comes from: the parent's nBits, or the
    encoding of a 256-bit value that is at most powLimit. *)
Lemma DigishieldCalculate_provenance
  (last : CBlockIndex.t) (rest : pindex) (bnAvg nFirstBlockTime : Z)
  (params : Params) (n : Z) :
  DigishieldCalculateNextWorkRequired (last :: rest) bnAvg nFirstBlockTime params = Ok n ->
  n = CBlockIndex.nBits last
  \/ exists a, 0 <= a <= UintToArith256 (powLimit params) /\ n = GetCompact a.
Proof.
  unfold DigishieldCalculateNextWorkRequired. cbn [deref bind].
  destruct (fPowNoRetargeting params); [intros [= <-]; left; reflexivity|].
  unfold U256.div. destruct (_ =? 0); cbn [bind]; [discriminate|].
  intros [= <-]. right. eexists. split; [|reflexivity].
  pose proof (UintToArith256_range (powLimit params)).
  match goal with |- context [U256.mul ?x ?y] => pose proof (U256_mul_range x y) end.
  match goal with
  | |- context [if ?x >? ?y then ?y else ?x] => destruct (Z.gtb_spec x y)
  end; lia.
Qed.

Lemma LwmaCalculate_provenance
  (last : CBlockIndex.t) (rest : pindex) (params : Params) (n : Z) :
  LwmaCalculateNextWorkRequired (last :: rest) params = Ok n ->
  n = CBlockIndex.nBits last
  \/ exists a, 0 <= a <= UintToArith256 (powLimit params) /\ n = GetCompact a.
Proof.
  unfold LwmaCalculateNextWorkRequired. cbn [deref bind].
  destruct (fPowNoRetargeting params); [intros [= <-]; left; reflexivity|].
  destruct (assert_ _); cbn [bind]; [|discriminate].
  destruct (LwmaLoop _ _ _ _) as [st|]; cbn [bind]; [|discriminate].
  destruct (int_div _ _) as [floor|]; cbn [bind]; [|discriminate].
  intros [= <-]. right. eexists. split; [|reflexivity].
  pose proof (UintToArith256_range (powLimit params)).
  match goal with |- context [U256.mul ?x ?y] => pose proof (U256_mul_range x y) end.
  match goal with
  | |- context [if ?x >? ?y then ?y else ?x] => destruct (Z.gtb_spec x y)
  end; lia.
Qed.

Lemma powLimit_provenance (params : Params) :
  exists a, 0 <= a <= UintToArith256 (powLimit params)
            /\ GetCompact (UintToArith256 (powLimit params)) = GetCompact a.
Proof.
  exists (UintToArith256 (powLimit params)).
  pose proof (UintToArith256_range (powLimit params)). split; [lia|reflexivity].
Qed.

Lemma GetNextWorkRequired_provenance
  (last : CBlockIndex.t) (rest : pindex) (pblock : option CBlockHeader.t)
  (params : Params) (n : Z) :
  GetNextWorkRequired (last :: rest) pblock params = Ok n ->
  n = CBlockIndex.nBits last
  \/ exists a, 0 <= a <= UintToArith256 (powLimit params) /\ n = GetCompact a.
Proof.
  unfold GetNextWorkRequired. cbn [is_null negb assert_ bind deref].
  destruct (_ <? _).
  - unfold DigishieldGetNextWorkRequired. cbn [is_null negb assert_ bind deref].
    destruct (DigishieldMinDifficultyEscape last pblock params);
      [intros [= <-]; right; apply powLimit_provenance|].
    destruct (DigishieldResetWindow (CBlockIndex.nHeight last) params);
      [intros [= <-]; right; apply powLimit_provenance|].
    destruct (DigishieldAveragingLoop _ _ _ _) as [[pindexFirst i] bnTot].
    destruct (is_null pindexFirst);
      [intros [= <-]; right; apply powLimit_provenance|].
    unfold U256.div. destruct (_ =? 0); cbn [bind]; [discriminate|].
    apply DigishieldCalculate_provenance.
  - unfold LwmaGetNextWorkRequired.
    match goal with |- bind ?m _ = _ -> _ => destruct m as [[|]|] end; cbn [bind].
    + intros [= <-]. right. apply powLimit_provenance.
    + apply LwmaCalculate_provenance.
    + discriminate.
Qed.

(** X2: a compact returned by nextWorkRequired always passes the range
    check of CheckProofOfWork, provided the parent's own compact does (no
    negative or overflow flag, target at most powLimit): a header carrying
    it is accepted exactly when its target is nonzero and the hash is at
    most the target. *)
Theorem nextWorkRequired_passes_range_check
  (pindexLast : pindex) (pblock : option CBlockHeader.t) (params : Params)
  (n hash : Z) :
  (forall last, deref pindexLast = Ok last ->
     fNegative (SetCompact (CBlockIndex.nBits last)) = false
     /\ fOverflow (SetCompact (CBlockIndex.nBits last)) = false
     /\ target_of (CBlockIndex.nBits last) <= UintToArith256 (powLimit params)) ->
  GetNextWorkRequired pindexLast pblock params = Ok n ->
  CheckProofOfWork hash n params
  = negb (target_of n =? 0) && (UintToArith256 hash <=? target_of n).
Proof.
  intros Hparent Hn.
  assert (Hwf : fNegative (SetCompact n) = false
                /\ fOverflow (SetCompact n) = false
                /\ target_of n <= UintToArith256 (powLimit params)).
  { destruct pindexLast as [|last rest]; [discriminate|].
    destruct (GetNextWorkRequired_provenance last rest pblock params n Hn)
      as [->|(a & Ha & ->)].
    - apply Hparent. reflexivity.
    - pose proof (UintToArith256_range (powLimit params)).
      destruct (GetCompact_flags a) as [Hneg Hov]; [lia|].
      pose proof (GetCompact_never_rounds_up a ltac:(lia)).
      repeat split; try assumption. lia. }
  destruct Hwf as (Hneg & Hov & Hle).
  unfold CheckProofOfWork. fold (target_of n). rewrite Hneg, Hov.
  destruct (Z.eqb_spec (target_of n) 0); cbn [orb negb andb]; [reflexivity|].
  destruct (Z.gtb_spec (target_of n) (UintToArith256 (powLimit params))); [lia|].
  destruct (Z.gtb_spec (UintToArith256 hash) (target_of n));
    destruct (Z.leb_spec (UintToArith256 hash) (target_of n)); try lia; reflexivity.
Qed.

Lemma nextWorkRequired_passes_range_check_witness :
  let p := index_of (steady_blocks 14 0x1f07ffff 150) in
  CheckProofOfWork (target_of 0x1f07fffe) 0x1f07fffe digishield_testnet
  = negb (target_of 0x1f07fffe =? 0)
    && (UintToArith256 (target_of 0x1f07fffe) <=? target_of 0x1f07fffe).
Proof.
  intros p.
  apply (nextWorkRequired_passes_range_check p (Some (header_at 1500002100))
           digishield_testnet 0x1f07fffe (target_of 0x1f07fffe)).
  - intros last H. vm_compute in H. injection H as <-.
    vm_compute. repeat split; congruence.
  - vm_compute. reflexivity.
Defined.

(** X3: the min-difficulty escape hands out a compact that can be mined.
    On a network with fPowAllowMinDifficultyBlocks and a nonzero powLimit,
    for a candidate later than the parent by more than both
    6 * nDigishieldTargetSpacing and 2 * nPowTargetSpacing, nextWorkRequired
    returns the compact of powLimit, its target is positive, and
    CheckProofOfWork accepts every hash that is at most that target. *)
Theorem min_difficulty_compact_is_mineable
  (last : CBlockIndex.t) (rest : pindex) (b : CBlockHeader.t) (params : Params)
  (hash : Z) :
  let n := GetCompact (UintToArith256 (powLimit params)) in
  fPowAllowMinDifficultyBlocks params = true ->
  UintToArith256 (powLimit params) <> 0 ->
  CBlockHeader.GetBlockTime b
    > CBlockIndex.GetBlockTime last + nDigishieldTargetSpacing params * 6 ->
  CBlockHeader.GetBlockTime b
    > CBlockIndex.GetBlockTime last + nPowTargetSpacing params * 2 ->
  UintToArith256 hash <= target_of n ->
  GetNextWorkRequired (last :: rest) (Some b) params = Ok n
  /\ 0 < target_of n
  /\ CheckProofOfWork hash n params = true.
Proof.
  intros n Hmin Hnz HlateD HlateL Hhash.
  pose proof (UintToArith256_range (powLimit params)) as Hr.
  assert (Hret : GetNextWorkRequired (last :: rest) (Some b) params = Ok n).
  { unfold GetNextWorkRequired. cbn [is_null negb assert_ bind deref].
    destruct (_ <? _).
    - unfold DigishieldGetNextWorkRequired, DigishieldMinDifficultyEscape.
      cbn [is_null negb assert_ bind deref]. rewrite Hmin. cbn [andb].
      destruct (Z.gtb_spec (CBlockHeader.GetBlockTime b)
                  (CBlockIndex.GetBlockTime last + nDigishieldTargetSpacing params * 6));
        [reflexivity|lia].
    - unfold LwmaGetNextWorkRequired. rewrite Hmin. cbn [deref_opt deref bind].
      destruct (Z.gtb_spec (CBlockHeader.GetBlockTime b)
                  (CBlockIndex.GetBlockTime last + nPowTargetSpacing params * 2));
        [reflexivity|lia]. }
  assert (Hpos : 0 < target_of n) by (apply GetCompact_positive; lia).
  split; [exact Hret|]. split; [exact Hpos|].
  destruct (GetCompact_flags (UintToArith256 (powLimit params)) Hr) as [Hneg Hov].
  pose proof (GetCompact_never_rounds_up (UintToArith256 (powLimit params)) Hr) as Hle.
  fold n in Hneg, Hov, Hle.
  unfold CheckProofOfWork. fold (target_of n). rewrite Hneg, Hov.
  destruct (Z.eqb_spec (target_of n) 0); [lia|]. cbn [orb].
  destruct (Z.gtb_spec (target_of n) (UintToArith256 (powLimit params))); [lia|].
  destruct (Z.gtb_spec (UintToArith256 hash) (target_of n)); [lia|reflexivity].
Qed.

Lemma min_difficulty_compact_is_mineable_witness :
  let last := CBlockIndex.mk 5 0x1f07ffff 1500000750 in
  let rest := index_of (steady_blocks 5 0x1f07ffff 150) in
  GetNextWorkRequired (last :: rest) (Some (header_at 1500002000)) digishield_testnet
  = Ok (GetCompact (UintToArith256 (powLimit digishield_testnet)))
  /\ 0 < target_of (GetCompact (UintToArith256 (powLimit digishield_testnet)))
  /\ CheckProofOfWork 12345 (GetCompact (UintToArith256 (powLimit digishield_testnet)))
       digishield_testnet = true.
Proof.
  intros last rest.
  apply (min_difficulty_compact_is_mineable last rest (header_at 1500002000)
           digishield_testnet 12345).
  - reflexivity.
  - vm_compute. congruence.
  - vm_compute. reflexivity.
  - vm_compute. reflexivity.
  - vm_compute. congruence.
Defined.

(** ** Digishield v3: how far one retarget can move *)

Lemma SumTargets_bound (M : Z) (l : pindex) :
  Forall (fun b => target_of (CBlockIndex.nBits b) <= M) l ->
  forall acc,
    0 <= acc ->
    0 <= fold_left (fun acc b => U256.add acc (target_of (CBlockIndex.nBits b))) l acc
      <= acc + Z.of_nat (length l) * M.
Proof.
  induction 1 as [|b l Hb Hl IH]; intros acc Hacc; cbn [fold_left length].
  - lia.
  - pose proof (target_of_range (CBlockIndex.nBits b)) as Ht.
    assert (Hadd : 0 <= U256.add acc (target_of (CBlockIndex.nBits b))
                   <= acc + target_of (CBlockIndex.nBits b)).
    { unfold U256.add, U256.wrap. split.
      - apply Z.mod_pos_bound. reflexivity.
      - apply Z.mod_le; [lia|reflexivity]. }
    specialize (IH _ (proj1 Hadd)). lia.
Qed.

Lemma quot_nonpos (x d : Z) : x <= 0 -> 0 < d -> Z.quot x d <= 0.
Proof.
  intros Hx Hd. replace x with (- (- x)) by lia.
  rewrite Z.quot_opp_l by lia.
  pose proof (Z.quot_pos (- x) d ltac:(lia) Hd). lia.
Qed.

(** The calculation proper, for a positive window timespan: the actual
    timespan it multiplies by lies between the two bounds, and is at most
    the window timespan when the measured span is. *)
Lemma DigishieldCalculate_clamped
  (last : CBlockIndex.t) (rest : pindex) (bnAvg nFirstBlockTime : Z)
  (params : Params) :
  fPowNoRetargeting params = false ->
  0 < DigishieldAveragingWindowTimespan params < 2 ^ 63 ->
  0 <= bnAvg ->
  exists n a,
    DigishieldCalculateNextWorkRequired (last :: rest) bnAvg nFirstBlockTime params = Ok n
    /\ DigishieldMinActualTimespan params <= a <= DigishieldMaxActualTimespan params
    /\ (GetMedianTimePast (last :: rest) - nFirstBlockTime
          <= DigishieldAveragingWindowTimespan params ->
        a <= DigishieldAveragingWindowTimespan params)
    /\ 0 <= a
    /\ target_of n <= bnAvg / DigishieldAveragingWindowTimespan params * a
    /\ target_of n <= UintToArith256 (powLimit params).
Proof.
  intros Hno HT Havg.
  unfold DigishieldCalculateNextWorkRequired. cbn [deref bind]. rewrite Hno.
  unfold DigishieldMinActualTimespan, DigishieldMaxActualTimespan.
  set (T := DigishieldAveragingWindowTimespan params) in *.
  rewrite (Z.quot_div_nonneg (T * (100 - 16)) 100),
    (Z.quot_div_nonneg (T * (100 + 32)) 100) by lia.
  set (d := T + Z.quot (GetMedianTimePast (last :: rest) - nFirstBlockTime - T) 4).
  set (lo := T * (100 - 16) / 100). set (hi := T * (100 + 32) / 100).
  assert (Hlo : 0 <= lo <= T).
  { subst lo. split; [apply Z.div_pos; lia|]. apply Z.div_le_upper_bound; lia. }
  assert (Hhi : T <= hi < 2 ^ 64).
  { subst hi. split; [apply Z.div_le_lower_bound; lia|].
    apply Z.div_lt_upper_bound; lia. }
  assert (Hd : GetMedianTimePast (last :: rest) - nFirstBlockTime <= T -> d <= T).
  { intros Hspan. subst d.
    pose proof (quot_nonpos
      (GetMedianTimePast (last :: rest) - nFirstBlockTime - T) 4 ltac:(lia) ltac:(lia)).
    lia. }
  clearbody d lo hi.
  set (a1 := if d <? lo then lo else d).
  set (a := if a1 >? hi then hi else a1).
  assert (Ha : lo <= a <= hi /\ (d <= T -> a <= T)).
  { subst a a1.
    destruct (Z.ltb_spec d lo);
      [destruct (Z.gtb_spec lo hi)|destruct (Z.gtb_spec d hi)]; lia. }
  destruct Ha as [Ha Ha'].
  assert (Hfast : GetMedianTimePast (last :: rest) - nFirstBlockTime <= T -> a <= T)
    by (intros Hspan; apply Ha', Hd, Hspan).
  clearbody a. clear a1 Ha' Hd.
  unfold U256.div, U256.of_uint64, to_uint64.
  rewrite (Z.mod_small T) by lia. rewrite (Z.mod_small a) by lia.
  destruct (Z.eqb_spec T 0) as [|_]; [lia|]. cbn [bind].
  eexists. exists a. split; [reflexivity|].
  split; [exact Ha|]. split; [exact Hfast|]. split; [lia|].
  pose proof (UintToArith256_range (powLimit params)) as Hl.
  pose proof (U256_mul_range (bnAvg / T) a) as Hm.
  assert (Hq : 0 <= bnAvg / T) by (apply Z.div_pos; lia).
  assert (Hwrap : U256.mul (bnAvg / T) a <= bnAvg / T * a).
  { unfold U256.mul, U256.wrap. apply Z.mod_le; [nia|reflexivity]. }
  match goal with
  | |- context [GetCompact ?x] =>
      pose proof (GetCompact_never_rounds_up x) as Hc; assert (Hx : 0 <= x <= U256.mul (bnAvg / T) a /\ x <= UintToArith256 (powLimit params))
  end.
  { destruct (Z.gtb_spec (U256.mul (bnAvg / T) a) (UintToArith256 (powLimit params))); lia. }
  specialize (Hc ltac:(lia)). lia.
Qed.

(** The retarget past its early rules, on a window whose targets are all
    at most [M]. *)
Lemma Digishield_retarget_bounds
  (last : CBlockIndex.t) (rest : pindex) (pblock : option CBlockHeader.t)
  (params : Params) (M : Z) :
  let p := last :: rest in
  let W := nDigishieldAveragingWindow params in
  let T := DigishieldAveragingWindowTimespan params in
  DigishieldMinDifficultyEscape last pblock params = false ->
  DigishieldResetWindow (CBlockIndex.nHeight last) params = false ->
  fPowNoRetargeting params = false ->
  0 < W -> 0 < nDigishieldTargetSpacing params -> T < 2 ^ 63 ->
  W < Z.of_nat (length p) ->
  Forall (fun b => target_of (CBlockIndex.nBits b) <= M) (DigishieldWindow W p) ->
  exists n a bnAvg,
    DigishieldGetNextWorkRequired p pblock params = Ok n
    /\ 0 <= bnAvg <= M
    /\ 0 <= a <= DigishieldMaxActualTimespan params
    /\ (GetMedianTimePast p - GetMedianTimePast (skipn (Z.to_nat W) p) <= T -> a <= T)
    /\ target_of n <= bnAvg / T * a
    /\ target_of n <= UintToArith256 (powLimit params).
Proof.
  intros p W T Hesc Hreset Hno HW Hsp HT Hlen HM.
  assert (HTpos : 0 < T) by (subst T; unfold DigishieldAveragingWindowTimespan; nia).
  assert (HW63 : W < 2 ^ 63)
    by (subst T; unfold DigishieldAveragingWindowTimespan in HT; fold W in HT; nia).
  unfold DigishieldGetNextWorkRequired. subst p.
  cbn [is_null negb assert_ bind deref].
  rewrite Hesc, Hreset. fold W. rewrite DigishieldAveragingLoop_start.
  unfold is_null. rewrite skipn_is_null.
  destruct (Nat.leb_spec (length (last :: rest)) (Z.to_nat W)); [lia|].
  unfold U256.div, U256.of_uint64, to_uint64. rewrite (Z.mod_small W) by lia.
  destruct (Z.eqb_spec W 0) as [|_]; [lia|]. cbn [bind].
  pose proof (SumTargets_bound M _ HM 0 ltac:(lia)) as Hsum.
  fold (SumTargets (DigishieldWindow W (last :: rest))) in Hsum.
  assert (Hwl : Z.of_nat (length (DigishieldWindow W (last :: rest))) = W).
  { unfold DigishieldWindow. rewrite length_firstn. lia. }
  rewrite Hwl in Hsum.
  set (bnAvg := SumTargets (DigishieldWindow W (last :: rest)) / W).
  assert (Havg : 0 <= bnAvg <= M).
  { subst bnAvg. split; [apply Z.div_pos; lia|].
    apply Z.div_le_upper_bound; lia. }
  destruct (DigishieldCalculate_clamped last rest bnAvg
              (GetMedianTimePast (skipn (Z.to_nat W) (last :: rest))) params Hno
              ltac:(fold T; lia) ltac:(lia))
    as (n & a & Hrun & Ha & Hfast & Ha0 & Hn & Hl).
  exists n, a, bnAvg. fold T in Hfast, Hn.
  split; [exact Hrun|]. split; [exact Havg|]. split; [lia|].
  split; [exact Hfast|]. split; assumption.
Qed.

Lemma Forall_target_le_by_computation (M : Z) (l : pindex) :
  forallb (fun b => target_of (CBlockIndex.nBits b) <=? M) l = true ->
  Forall (fun b => target_of (CBlockIndex.nBits b) <= M) l.
Proof.
  intros H. apply Forall_forall. intros b Hb. apply Z.leb_le.
  exact (proj1 (forallb_forall _ l) H b Hb).
Qed.

(** X4: one Digishield retarget eases by at most 32 percent.  Past the
    min-difficulty and fork-reset rules, with retargeting on, positive
    window and spacing and more than W index entries, the returned compact
    decodes to at most 132/100 of the largest target of the averaging
    window (and to at most powLimit). *)
Theorem digishield_eases_at_most_32_percent
  (last : CBlockIndex.t) (rest : pindex) (pblock : option CBlockHeader.t)
  (params : Params) (M : Z) :
  let p := last :: rest in
  let W := nDigishieldAveragingWindow params in
  DigishieldMinDifficultyEscape last pblock params = false ->
  DigishieldResetWindow (CBlockIndex.nHeight last) params = false ->
  fPowNoRetargeting params = false ->
  0 < W -> 0 < nDigishieldTargetSpacing params ->
  DigishieldAveragingWindowTimespan params < 2 ^ 63 ->
  W < Z.of_nat (length p) ->
  Forall (fun b => target_of (CBlockIndex.nBits b) <= M) (DigishieldWindow W p) ->
  exists n,
    DigishieldGetNextWorkRequired p pblock params = Ok n
    /\ target_of n * 100 <= M * 132
    /\ target_of n <= UintToArith256 (powLimit params).
Proof.
  intros p W Hesc Hreset Hno HW Hsp HT Hlen HM.
  destruct (Digishield_retarget_bounds last rest pblock params M
              Hesc Hreset Hno HW Hsp HT Hlen HM)
    as (n & a & bnAvg & Hrun & Havg & Ha & _ & Hn & Hl).
  exists n. split; [exact Hrun|]. split; [|exact Hl].
  set (T := DigishieldAveragingWindowTimespan params) in *.
  assert (HTpos : 0 < T) by (subst T; unfold DigishieldAveragingWindowTimespan; nia).
  unfold DigishieldMaxActualTimespan in Ha. fold T in Ha.
  rewrite Z.quot_div_nonneg in Ha by lia.
  pose proof (Z.mul_div_le (T * (100 + 32)) 100 ltac:(lia)) as Hmax.
  pose proof (Z.mul_div_le bnAvg T HTpos) as Hq.
  assert (Hq0 : 0 <= bnAvg / T) by (apply Z.div_pos; lia).
  nia.
Qed.

Lemma digishield_eases_at_most_32_percent_witness :
  let last := CBlockIndex.mk 13 0x1f07ffff 1500007800 in
  let rest := index_of (steady_blocks 13 0x1f07ffff 600) in
  exists n,
    DigishieldGetNextWorkRequired (last :: rest) None digishield_mainnet = Ok n
    /\ target_of n * 100 <= target_of 0x1f07ffff * 132
    /\ target_of n <= UintToArith256 (powLimit digishield_mainnet).
Proof.
  intros last rest.
  apply (digishield_eases_at_most_32_percent last rest None digishield_mainnet
           (target_of 0x1f07ffff)).
  - vm_compute. reflexivity.
  - vm_compute. reflexivity.
  - vm_compute. reflexivity.
  - vm_compute. reflexivity.
  - vm_compute. reflexivity.
  - vm_compute. reflexivity.
  - vm_compute. reflexivity.
  - apply Forall_target_le_by_computation. vm_compute. reflexivity.
Defined.

(** X5: Digishield never eases after a window that was on time or fast.
    Under the same conditions, when the median-time-past of the parent is
    at most one window timespan after that of the entry W steps below it,
    the returned compact decodes to at most the largest target of the
    averaging window. *)
Theorem digishield_no_easing_when_on_time
  (last : CBlockIndex.t) (rest : pindex) (pblock : option CBlockHeader.t)
  (params : Params) (M : Z) :
  let p := last :: rest in
  let W := nDigishieldAveragingWindow params in
  DigishieldMinDifficultyEscape last pblock params = false ->
  DigishieldResetWindow (CBlockIndex.nHeight last) params = false ->
  fPowNoRetargeting params = false ->
  0 < W -> 0 < nDigishieldTargetSpacing params ->
  DigishieldAveragingWindowTimespan params < 2 ^ 63 ->
  W < Z.of_nat (length p) ->
  Forall (fun b => target_of (CBlockIndex.nBits b) <= M) (DigishieldWindow W p) ->
  GetMedianTimePast p - GetMedianTimePast (skipn (Z.to_nat W) p)
    <= DigishieldAveragingWindowTimespan params ->
  exists n,
    DigishieldGetNextWorkRequired p pblock params = Ok n
    /\ target_of n <= M.
Proof.
  intros p W Hesc Hreset Hno HW Hsp HT Hlen HM Hspan.
  destruct (Digishield_retarget_bounds last rest pblock params M
              Hesc Hreset Hno HW Hsp HT Hlen HM)
    as (n & a & bnAvg & Hrun & Havg & Ha & Hfast & Hn & _).
  exists n. split; [exact Hrun|].
  set (T := DigishieldAveragingWindowTimespan params) in *.
  assert (HTpos : 0 < T) by (subst T; unfold DigishieldAveragingWindowTimespan; nia).
  specialize (Hfast Hspan).
  pose proof (Z.mul_div_le bnAvg T HTpos) as Hq.
  assert (Hq0 : 0 <= bnAvg / T) by (apply Z.div_pos; lia).
  nia.
Qed.

Lemma digishield_no_easing_when_on_time_witness :
  let last := CBlockIndex.mk 13 0x1f07ffff 1500001950 in
  let rest := index_of (steady_blocks 13 0x1f07ffff 150) in
  exists n,
    DigishieldGetNextWorkRequired (last :: rest) None digishield_mainnet = Ok n
    /\ target_of n <= target_of 0x1f07ffff.
Proof.
  intros last rest.
  apply (digishield_no_easing_when_on_time last rest None digishield_mainnet
           (target_of 0x1f07ffff)).
  - vm_compute. reflexivity.
  - vm_compute. reflexivity.
  - vm_compute. reflexivity.
  - vm_compute. reflexivity.
  - vm_compute. reflexivity.
  - vm_compute. reflexivity.
  - vm_compute. reflexivity.
  - apply Forall_target_le_by_computation. vm_compute. reflexivity.
  - vm_compute. congruence.
Defined.

(** ** What a retarget reads *)

Lemma GetMedianTimePast_firstn (k : nat) (p : pindex) :
  (11 <= k)%nat -> GetMedianTimePast (firstn k p) = GetMedianTimePast p.
Proof.
  intros Hk. unfold GetMedianTimePast, nMedianTimeSpan.
  rewrite firstn_firstn. replace (Nat.min 11 k) with 11%nat by lia. reflexivity.
Qed.

Lemma DigishieldCalculate_firstn
  (k : nat) (p : pindex) (bnAvg nFirstBlockTime : Z) (params : Params) :
  (11 <= k)%nat ->
  DigishieldCalculateNextWorkRequired (firstn k p) bnAvg nFirstBlockTime params
  = DigishieldCalculateNextWorkRequired p bnAvg nFirstBlockTime params.
Proof.
  intros Hk. unfold DigishieldCalculateNextWorkRequired.
  rewrite GetMedianTimePast_firstn by assumption.
  destruct k as [|k]; [lia|]. destruct p; reflexivity.
Qed.

Lemma Digishield_firstn
  (p : pindex) (pblock : option CBlockHeader.t) (params : Params) :
  DigishieldGetNextWorkRequired
    (firstn (Z.to_nat (nDigishieldAveragingWindow params) + 11) p) pblock params
  = DigishieldGetNextWorkRequired p pblock params.
Proof.
  set (w := Z.to_nat (nDigishieldAveragingWindow params)).
  destruct p as [|last rest]; [rewrite firstn_nil; reflexivity|].
  set (q := firstn (w + 11) (last :: rest)).
  assert (Hq : q = last :: firstn (w + 10) rest).
  { subst q. replace (w + 11)%nat with (S (w + 10)) by lia. reflexivity. }
  assert (Hnull : is_null (skipn w q) = is_null (skipn w (last :: rest))).
  { subst q. unfold is_null. rewrite !skipn_is_null, length_firstn.
    destruct (Nat.leb_spec (length (last :: rest)) w);
      destruct (Nat.leb_spec (Nat.min (w + 11) (length (last :: rest))) w);
      try reflexivity; lia. }
  assert (Hsum : DigishieldWindow (nDigishieldAveragingWindow params) q
                 = DigishieldWindow (nDigishieldAveragingWindow params) (last :: rest)).
  { subst q. unfold DigishieldWindow. fold w. rewrite firstn_firstn.
    replace (Nat.min w (w + 11)) with w by lia. reflexivity. }
  assert (Hmtp : GetMedianTimePast (skipn w q)
                 = GetMedianTimePast (skipn w (last :: rest))).
  { subst q. rewrite <- (GetMedianTimePast_firstn 11 (skipn w (last :: rest))) by lia.
    rewrite firstn_skipn_comm. reflexivity. }
  assert (Hcalc : forall bnAvg t,
            DigishieldCalculateNextWorkRequired q bnAvg t params
            = DigishieldCalculateNextWorkRequired (last :: rest) bnAvg t params).
  { intros bnAvg t. subst q. apply DigishieldCalculate_firstn. lia. }
  unfold DigishieldGetNextWorkRequired.
  rewrite !DigishieldAveragingLoop_start. fold w.
  rewrite Hnull, Hsum, Hmtp.
  assert (Hn : is_null q = false) by (rewrite Hq; reflexivity).
  assert (Hd : deref q = Ok last) by (rewrite Hq; reflexivity).
  rewrite Hn, Hd. cbn [is_null negb assert_ bind deref].
  destruct (DigishieldMinDifficultyEscape last pblock params); [reflexivity|].
  destruct (DigishieldResetWindow (CBlockIndex.nHeight last) params); [reflexivity|].
  destruct (is_null (skipn w (last :: rest))); [reflexivity|].
  destruct (U256.div _ _); cbn [bind]; [apply Hcalc|reflexivity].
Qed.

(** X6: Digishield reads the newest W + 11 index entries only: two parent
    indexes that agree on them get the same answer, whatever lies below
    (W entries for the averaging window, then the 11 of the first block's
    median-time-past). *)
Theorem digishield_reads_newest_entries
  (p p' : pindex) (pblock : option CBlockHeader.t) (params : Params) :
  let n := (Z.to_nat (nDigishieldAveragingWindow params) + 11)%nat in
  firstn n p = firstn n p' ->
  DigishieldGetNextWorkRequired p pblock params
  = DigishieldGetNextWorkRequired p' pblock params.
Proof.
  intros n Heq.
  rewrite <- (Digishield_firstn p), <- (Digishield_firstn p'). fold n.
  rewrite Heq. reflexivity.
Qed.

Lemma digishield_reads_newest_entries_witness :
  let p := index_of (steady_blocks 20 0x1f07ffff 150) in
  let p' := index_of (steady_blocks 6 0x1e00ffff 7 ++ skipn 6 (steady_blocks 20 0x1f07ffff 150)) in
  DigishieldGetNextWorkRequired p None digishield_mainnet
  = DigishieldGetNextWorkRequired p' None digishield_mainnet.
Proof.
  intros p p'.
  apply (digishield_reads_newest_entries p p' None digishield_mainnet).
  vm_compute. reflexivity.
Defined.

(** X7: on a network without min-difficulty blocks the candidate header
    has no influence on nextWorkRequired: any two candidates, present or
    absent, get the same answer. *)
Theorem candidate_ignored_without_min_difficulty
  (pindexLast : pindex) (pblock pblock' : option CBlockHeader.t) (params : Params) :
  fPowAllowMinDifficultyBlocks params = false ->
  GetNextWorkRequired pindexLast pblock params
  = GetNextWorkRequired pindexLast pblock' params.
Proof.
  intros Hmin. unfold GetNextWorkRequired.
  destruct pindexLast as [|last rest]; [reflexivity|].
  cbn [is_null negb assert_ bind deref].
  destruct (_ <? _).
  - unfold DigishieldGetNextWorkRequired, DigishieldMinDifficultyEscape.
    rewrite Hmin. reflexivity.
  - unfold LwmaGetNextWorkRequired. rewrite Hmin. reflexivity.
Qed.

Lemma candidate_ignored_without_min_difficulty_witness :
  let p := index_of (steady_blocks 14 0x1f07ffff 150) in
  GetNextWorkRequired p (Some (header_at 1600000000)) digishield_mainnet
  = GetNextWorkRequired p None digishield_mainnet.
Proof.
  intros p.
  apply (candidate_ignored_without_min_difficulty p _ _ digishield_mainnet).
  reflexivity.
Defined.

(** ** LWMA: the loop on a well-formed index *)

Section LwmaLoopFacts.

Variable last : CBlockIndex.t.
Variable rest : pindex.
Hypothesis index_ok : chain_ok (last :: rest).
Variable params : Params.
Hypothesis divisor_nonzero : LwmaDivisor params <> 0.

Lemma LwmaLoopBody_divides (st : lwma_state) (i : Z) :
  1 <= i <= CBlockIndex.nHeight last ->
  LwmaLoopBody (last :: rest) params st i
  = Ok (mkLwma
          (to_int32 (lwma_t st + solvetime_at (last :: rest) params i * (lwma_j st + 1)))
          (lwma_j st + 1)
          (U256.add (lwma_sum_target st)
             (target_at (last :: rest) i / LwmaDivisor params))).
Proof.
  intros Hi.
  destruct (LwmaLoopBody_in_chain last rest index_ok params st i Hi) as (b & Hb & ->).
  unfold U256.div, U256.of_uint64, target_at. rewrite Hb.
  fold (LwmaDivisor params).
  destruct (Z.eqb_spec (LwmaDivisor params) 0); [contradiction|]. reflexivity.
Qed.

Lemma LwmaLoop_returns (heights : list Z) :
  (forall i, In i heights -> 1 <= i <= CBlockIndex.nHeight last) ->
  forall st, exists st', LwmaLoop (last :: rest) params heights st = Ok st'.
Proof.
  induction heights as [|i heights IH]; intros Hin st; cbn [LwmaLoop].
  - exists st. reflexivity.
  - rewrite LwmaLoopBody_divides by (apply Hin; left; reflexivity). cbn [bind].
    apply IH. intros j Hj. apply Hin. right. exact Hj.
Qed.

Lemma LwmaLoop_sum_exact (heights : list Z) :
  (forall i, In i heights -> 1 <= i <= CBlockIndex.nHeight last) ->
  forall st,
    let terms := map (fun i => target_at (last :: rest) i / LwmaDivisor params) heights in
    0 <= lwma_sum_target st ->
    lwma_sum_target st + Zsum terms < U256.modulus ->
    (forall x, In x terms -> 0 <= x) ->
    exists st',
      LwmaLoop (last :: rest) params heights st = Ok st'
      /\ lwma_sum_target st' = lwma_sum_target st + Zsum terms.
Proof.
  induction heights as [|i heights IH]; intros Hin st terms Hs Hfit Hpos; subst terms;
    cbn [LwmaLoop map Zsum] in *.
  - exists st. split; [reflexivity|lia].
  - rewrite LwmaLoopBody_divides by (apply Hin; left; reflexivity). cbn [bind].
    set (x := target_at (last :: rest) i / LwmaDivisor params) in *.
    assert (Hx : 0 <= x) by (apply Hpos; left; reflexivity).
    assert (Hrest : 0 <= Zsum (map (fun i0 => target_at (last :: rest) i0
                                              / LwmaDivisor params) heights)).
    { assert (Hpos' : forall y, In y (map (fun i0 => target_at (last :: rest) i0
                                              / LwmaDivisor params) heights) -> 0 <= y)
        by (intros y Hy; apply Hpos; right; exact Hy).
      revert Hpos'. generalize (map (fun i0 => target_at (last :: rest) i0
                                              / LwmaDivisor params) heights).
      intros l. induction l as [|y l IHl]; intros Hl; cbn [Zsum]; [lia|].
      pose proof (Hl y (or_introl eq_refl)).
      specialize (IHl (fun z Hz => Hl z (or_intror Hz))). lia. }
    assert (Hadd : U256.add (lwma_sum_target st) x = lwma_sum_target st + x).
    { unfold U256.add, U256.wrap. apply Z.mod_small. lia. }
    match goal with
    | |- context [LwmaLoop _ _ heights ?st1] =>
        destruct (IH (fun j Hj => Hin j (or_intror Hj)) st1) as (st' & Hrun & Hsum)
    end.
    + cbn [lwma_sum_target]. rewrite Hadd. lia.
    + cbn [lwma_sum_target]. rewrite Hadd. lia.
    + intros y Hy. apply Hpos. right. exact Hy.
    + exists st'. split; [exact Hrun|].
      rewrite Hsum. cbn [lwma_sum_target]. rewrite Hadd. lia.
Qed.

End LwmaLoopFacts.

Lemma target_at_range (p : pindex) (i : Z) : 0 <= target_at p i < U256.modulus.
Proof.
  unfold target_at. destruct (block_at p i).
  - apply target_of_range.
  - unfold U256.modulus. lia.
Qed.

Lemma Zsum_bound (m : Z) (l : list Z) :
  (forall x, In x l -> 0 <= x <= m) -> 0 <= Zsum l <= Z.of_nat (length l) * m.
Proof.
  induction l as [|x l IH]; intros Hl; cbn [Zsum length]; [lia|].
  pose proof (Hl x (or_introl eq_refl)).
  specialize (IH (fun y Hy => Hl y (or_intror Hy))). lia.
Qed.



(** ** LWMA: what it reads, and when it returns *)

Lemma block_at_firstn (m : nat) (p p' : pindex) (i : Z) :
  firstn (S m) p = firstn (S m) p' ->
  (forall last, deref p = Ok last ->
     (Z.to_nat (CBlockIndex.nHeight last - i) <= m)%nat) ->
  block_at p i = block_at p' i.
Proof.
  intros Heq Hi. destruct p as [|last rest], p' as [|last' rest'];
    try reflexivity; try discriminate.
  assert (last' = last) by (cbn [firstn] in Heq; congruence). subst last'.
  specialize (Hi last eq_refl). unfold block_at.
  pose proof (nth_error_firstn (S m) (last :: rest)
                (Z.to_nat (CBlockIndex.nHeight last - i))) as H1.
  pose proof (nth_error_firstn (S m) (last :: rest')
                (Z.to_nat (CBlockIndex.nHeight last - i))) as H2.
  destruct (Nat.ltb_spec (Z.to_nat (CBlockIndex.nHeight last - i)) (S m)); [|lia].
  rewrite <- H1, <- H2, Heq. reflexivity.
Qed.

Lemma LwmaLoop_firstn
  (m : nat) (last : CBlockIndex.t) (rest rest' : pindex) (params : Params)
  (heights : list Z) :
  chain_ok (last :: rest) -> chain_ok (last :: rest') ->
  firstn (S m) (last :: rest) = firstn (S m) (last :: rest') ->
  (forall i, In i heights ->
     1 <= i <= CBlockIndex.nHeight last
     /\ CBlockIndex.nHeight last - (i - 1) <= Z.of_nat m) ->
  forall st,
    LwmaLoop (last :: rest) params heights st
    = LwmaLoop (last :: rest') params heights st.
Proof.
  intros Hok Hok' Heq. induction heights as [|i heights IH]; intros Hin st;
    cbn [LwmaLoop]; [reflexivity|].
  destruct (Hin i (or_introl eq_refl)) as [Hi Hm].
  assert (Hb : forall j, i - 1 <= j <= i ->
                 block_at (last :: rest) j = block_at (last :: rest') j).
  { intros j Hj. apply (block_at_firstn m); [exact Heq|].
    intros l [= <-]. lia. }
  destruct (LwmaLoopBody_in_chain last rest Hok params st i Hi) as (b & Hat & ->).
  destruct (LwmaLoopBody_in_chain last rest' Hok' params st i Hi) as (b' & Hat' & ->).
  assert (b' = b) by (rewrite Hb in Hat by lia; congruence). subst b'.
  assert (Hs : solvetime_at (last :: rest') params i
               = solvetime_at (last :: rest) params i).
  { unfold solvetime_at, time_at. rewrite !Hb by lia. reflexivity. }
  rewrite Hs.
  destruct (U256.div _ _); cbn [bind]; [|reflexivity].
  apply IH. intros j Hj. apply Hin. right. exact Hj.
Qed.

(** X9: LWMA reads the newest N + 1 index entries only: on two
    well-formed parent indexes that agree on them, the engine gives the
    same answer for every candidate. *)
Theorem lwma_reads_newest_entries
  (p p' : pindex) (pblock : option CBlockHeader.t) (params : Params) :
  let n := S (Z.to_nat (nZawyLwmaAveragingWindow params)) in
  chain_ok p -> chain_ok p' ->
  firstn n p = firstn n p' ->
  LwmaGetNextWorkRequired p pblock params = LwmaGetNextWorkRequired p' pblock params.
Proof.
  intros n Hok Hok' Heq. subst n.
  destruct p as [|last rest], p' as [|last' rest'];
    try reflexivity; try discriminate.
  assert (last' = last) by (cbn [firstn] in Heq; congruence). subst last'.
  unfold LwmaGetNextWorkRequired. cbn [deref].
  match goal with |- bind ?m _ = _ => destruct m as [[|]|] end; cbn [bind];
    try reflexivity.
  unfold LwmaCalculateNextWorkRequired. cbn [deref bind].
  destruct (fPowNoRetargeting params); [reflexivity|].
  destruct (Z.gtb_spec (CBlockIndex.nHeight last + 1) (nZawyLwmaAveragingWindow params))
    as [Hh|Hh]; cbn [assert_ bind]; [|reflexivity].
  rewrite (LwmaLoop_firstn (Z.to_nat (nZawyLwmaAveragingWindow params))
             last rest rest' params _ Hok Hok' Heq); [reflexivity|].
  intros i Hi. apply in_for_range in Hi. lia.
Qed.

Lemma lwma_reads_newest_entries_witness :
  let p := index_of (steady_blocks 20 0x1f07ffff 150) in
  let p' := index_of (steady_blocks 16 0x1e00ffff 7 ++ skipn 16 (steady_blocks 20 0x1f07ffff 150)) in
  LwmaGetNextWorkRequired p None lwma_unlimited
  = LwmaGetNextWorkRequired p' None lwma_unlimited.
Proof.
  intros p p'.
  apply (lwma_reads_newest_entries p p' None lwma_unlimited).
  - vm_compute. repeat split; reflexivity.
  - vm_compute. repeat split; reflexivity.
  - vm_compute. reflexivity.
Defined.



(** ** LWMA: the accumulator on ordered timestamps *)

Lemma WeightedSum_bound (B : Z) (l : list Z) :
  (forall s, In s l -> 0 <= s <= B) ->
  forall j, 0 <= j ->
    0 <= WeightedSum l j
    /\ 2 * WeightedSum l j
       <= B * ((j + Z.of_nat (length l)) * (j + Z.of_nat (length l) + 1) - j * (j + 1)).
Proof.
  induction l as [|s l IH]; intros Hl j Hj; cbn [WeightedSum length].
  - split; [lia|]. replace (j + Z.of_nat 0) with j by lia. lia.
  - pose proof (Hl s (or_introl eq_refl)) as Hs.
    destruct (IH (fun x Hx => Hl x (or_intror Hx)) (j + 1) ltac:(lia)) as [IH0 IH1].
    replace (j + Z.of_nat (S (length l))) with (j + 1 + Z.of_nat (length l)) by lia.
    split; [nia|].
    set (e := (j + 1 + Z.of_nat (length l)) * (j + 1 + Z.of_nat (length l) + 1)) in *.
    assert (2 * (s * (j + 1)) <= B * ((j + 1) * (j + 1 + 1) - j * (j + 1))) by nia.
    clearbody e. nia.
Qed.



(** ** LWMA: the closed form *)



(** ** Equihash parameters and the solution size *)

(** X13: whenever CheckEquihashSolution invokes the verifier, the (n, k)
    it passes agree with the size rule noted in the source,
    solution size = 2^k * (n / (k + 1) + 1) / 8, for the length of the
    header's nSolution, which is the solution handed over. *)
Theorem equihash_parameters_fit_solution_size
  (blake2b_state : Type)
  (EhInitialiseState : Z -> Z -> blake2b_state)
  (blake2b_update : blake2b_state -> list Byte.byte -> blake2b_state)
  (EhIsValidSolution : Z -> Z -> blake2b_state -> list Byte.byte -> bool)
  (pblock : CBlockHeader.t) :
  Forall
    (fun c =>
       call_soln _ c = CBlockHeader.nSolution pblock
       /\ Z.of_nat (length (call_soln _ c))
          = 2 ^ call_k c * (call_n c / (call_k c + 1) + 1) / 8)
    (snd (CheckEquihashSolution blake2b_state EhInitialiseState blake2b_update
            EhIsValidSolution pblock)).
Proof.
  unfold CheckEquihashSolution.
  set (len := Z.of_nat (length (CBlockHeader.nSolution pblock))).
  destruct (Z.eqb_spec len 1344) as [E|_];
    [repeat constructor; cbn; fold len; rewrite E; reflexivity|].
  destruct (Z.eqb_spec len 36) as [E|_];
    [repeat constructor; cbn; fold len; rewrite E; reflexivity|].
  destruct (Z.eqb_spec len 400) as [E|_];
    [repeat constructor; cbn; fold len; rewrite E; reflexivity|].
  destruct (Z.eqb_spec len 100) as [E|_];
    [repeat constructor; cbn; fold len; rewrite E; reflexivity|].
  destruct (Z.eqb_spec len 68) as [E|_];
    [repeat constructor; cbn; fold len; rewrite E; reflexivity|].
  constructor.
Qed.

(** ** Wallet balances *)

(** X14: balanceChanged compares the sixteen amounts and nothing else: it
    is false exactly when the two collections carry the same amounts, so it
    is symmetric, false on equal arguments, and blind to have_watch_only. *)
Theorem balanceChanged_compares_amounts (a b : WalletBalances.t) :
  (WalletBalances.balanceChanged a b = false
   <-> WalletBalances.amounts a = WalletBalances.amounts b)
  /\ WalletBalances.balanceChanged a b = WalletBalances.balanceChanged b a
  /\ WalletBalances.balanceChanged a a = false.
Proof.
  assert (Hiff : forall x y,
            WalletBalances.balanceChanged x y = false
            <-> WalletBalances.amounts x = WalletBalances.amounts y).
  { intros x y. unfold WalletBalances.balanceChanged, WalletBalances.amounts. split.
    - intros H. repeat (apply orb_false_elim in H; destruct H as [H ?]).
      repeat match goal with
             | E : negb (_ =? _) = false |- _ =>
                 apply negb_false_iff, Z.eqb_eq in E; rewrite E; clear E
             end.
      reflexivity.
    - intros H. injection H as -> -> -> -> -> -> -> -> -> -> -> -> -> -> -> ->.
      rewrite !Z.eqb_refl. reflexivity. }
  split; [apply Hiff|]. split.
  - destruct (WalletBalances.balanceChanged a b) eqn:Hab;
      destruct (WalletBalances.balanceChanged b a) eqn:Hba; try reflexivity.
    + apply Hiff in Hba. symmetry in Hba. apply Hiff in Hba. congruence.
    + apply Hiff in Hab. symmetry in Hab. apply Hiff in Hab. congruence.
  - apply Hiff. reflexivity.
Qed.
